(** * The collection build pipeline: [compileSrcDir] and its helpers

    A shallow embedding of the build orchestration code
    ([compileSrcDir], [scanDir], [copySourceSassFilesToDest] and
    [isValidDirectory]) together with the properties its specification
    states about it.

    Conventions of the embedding.

    - JavaScript strings are [string]; [String.prototype.indexOf] and
      [Array.prototype.indexOf] are written out and return [-1] when
      nothing is found, as in the source.
    - The objects used as dictionaries and only ever written by key
      ([compileResults.moduleFiles], [ctx.filesToWrite]) are [gmap]s.  The
      object that the code enumerates with [Object.keys]
      ([transpileResults.moduleFiles]) is the list of its entries in
      enumeration order.
    - A promise is represented by the way it ends: resolved with a value,
      rejected with an error, or never settled.  The two mutable objects
      the promises share ([compileResults] and [ctx]) are threaded through
      explicitly.
    - Callbacks of one directory level (and the reads of the assets) run in
      the order in which the source issues them, each to its end.  The
      properties below speak about keys, membership and counts.
    - [scanDir] recurses over the file system, so it carries a fuel
      argument; [None] means the fuel ran out.  [scanDir_total] shows that
      a directory tree of finite depth is scanned with enough fuel. *)

From Stdlib Require Import ZArith String Ascii List Bool.
From stdpp Require Import base option list gmap strings fin_maps.
Import ListNotations.
Open Scope string_scope.
Open Scope list_scope.
Open Scope stdpp_scope.

(* stdpp's solvers clear hypotheses by name; the notice that a name is
   already gone carries no information here *)
#[local] Set Warnings "-clear-no-such-hyp".

(** ** JavaScript primitives *)

(** [s.indexOf(searchString)]: position of the first occurrence, [-1] if
    there is none. *)
Fixpoint String_indexOf_from (i : Z) (s searchString : string) : Z :=
  if String.prefix searchString s then i
  else match s with
       | EmptyString => (-1)%Z
       | String _ s' => String_indexOf_from (i + 1)%Z s' searchString
       end.

Definition String_indexOf (s searchString : string) : Z :=
  String_indexOf_from 0%Z s searchString.

(** [arr.indexOf(x)] on an array of strings. *)
Fixpoint Array_indexOf_from (i : Z) (arr : list string) (x : string) : Z :=
  match arr with
  | [] => (-1)%Z
  | y :: arr' => if String.eqb y x then i else Array_indexOf_from (i + 1)%Z arr' x
  end.

Definition Array_indexOf (arr : list string) (x : string) : Z :=
  Array_indexOf_from 0%Z arr x.

(** [arr.push(x)]. *)
Definition Array_push {A} (arr : list A) (x : A) : list A := arr ++ [x].

(** ** Errors, callbacks and promises *)

Record Error := mkError { message : string }.

(** The two arguments [(err, value)] of a node-style callback, and the
    result of a call that may throw. *)
Inductive result (A : Type) :=
| Ok (value : A)
| Err (err : Error).
Arguments Ok {A} value.
Arguments Err {A} err.

(** How a promise ends. *)
Inductive outcome (A : Type) :=
| Resolved (value : A)
| Rejected (err : Error)
| Pending.
Arguments Resolved {A} value.
Arguments Rejected {A} err.
Arguments Pending {A}.

(** [Promise.all(promises)]: rejected with the first rejection, otherwise
    resolved once every member is. *)
Fixpoint Promise_all {A} (promises : list (outcome A)) : outcome (list A) :=
  match promises with
  | [] => Resolved []
  | p :: rest =>
      match p, Promise_all rest with
      | Rejected err, _ => Rejected err
      | _, Rejected err => Rejected err
      | Pending, _ => Pending
      | _, Pending => Pending
      | Resolved v, Resolved vs => Resolved (v :: vs)
      end
  end.

(** ** Data model *)

Inductive Level := LevelError | LevelWarn | LevelInfo.

Record Diagnostic := mkDiagnostic { level : Level; messageText : string }.

(** The manifest is built by [generateManifest] and never inspected here:
    it is either the initial [{}] or what [generateManifest] returned. *)
Inductive Manifest :=
| EmptyManifest
| GeneratedManifest (content : string).

Module ModuleFile.
Record t := mk {
  tsFilePath : string;
  jsFilePath : string;
  jsText : string;
  includedSassFiles : option (list string)
}.
End ModuleFile.

Module CompileResults.
Record t := mk {
  moduleFiles : gmap string ModuleFile.t;
  diagnostics : list Diagnostic;
  manifest : Manifest;
  includedSassFiles : list string
}.

Definition set_moduleFiles (r : t) (m : gmap string ModuleFile.t) : t :=
  mk m (diagnostics r) (manifest r) (includedSassFiles r).
Definition set_diagnostics (r : t) (d : list Diagnostic) : t :=
  mk (moduleFiles r) d (manifest r) (includedSassFiles r).
Definition set_manifest (r : t) (m : Manifest) : t :=
  mk (moduleFiles r) (diagnostics r) m (includedSassFiles r).
Definition set_includedSassFiles (r : t) (l : list string) : t :=
  mk (moduleFiles r) (diagnostics r) (manifest r) l.
End CompileResults.

Module TranspileResults.
Record t := mk {
  diagnostics : list Diagnostic;
  (** entries in [Object.keys] order; [None] when the field is unset *)
  moduleFiles : option (list (string * ModuleFile.t))
}.
End TranspileResults.

Record Stats := mkStats { isDirectory : bool }.

Record Sys := mkSys {
  fs_readdir : string -> result (list string);
  fs_stat : string -> result Stats;
  path_join : string -> string -> string;
  path_relative : string -> string -> string
}.

Record BuildConfig := mkBuildConfig {
  sys : Sys;
  src : string;
  rootDir : string;
  collectionDest : string;
  exclude : list string;
  generateCollection : bool
}.

Record BuildContext := mkBuildContext {
  filesToWrite : gmap string string
}.

(** The functions this file imports from its neighbours ([./util],
    [./manifest], [./transpile/...]). *)
Class Imports := {
  normalizePath : string -> string;
  isTsSourceFile : string -> bool;
  readFile : Sys -> string -> outcome string;
  getModuleFile : BuildConfig -> BuildContext -> string -> outcome ModuleFile.t;
  transpile : BuildConfig -> BuildContext -> gmap string ModuleFile.t ->
              outcome TranspileResults.t;
  generateManifest : BuildConfig -> BuildContext -> CompileResults.t ->
                     result Manifest
}.

(** Modelled from the spec: [catchError] is imported from [./util], which is
    not among the sources.  The specification says that a caught fault is
    converted into one diagnostic record appended to the diagnostics
    sequence. *)
Definition catchError (diagnostics : list Diagnostic) (err : Error) : list Diagnostic :=
  Array_push diagnostics (mkDiagnostic LevelError (message err)).

(** ** [isValidDirectory] *)

Fixpoint isValidDirectory (exclude : list string) (filePath : string) : bool :=
  match exclude with
  | [] => true
  | pattern :: rest =>
      if (String_indexOf filePath pattern >? -1)%Z then false
      else isValidDirectory rest filePath
  end.

(** ** The build pipeline *)

(** The two objects every phase mutates. *)
Record Heap := mkHeap {
  compileResults : CompileResults.t;
  ctx : BuildContext
}.

(** A promise whose callbacks mutate the shared objects. *)
Definition Async (A : Type) : Type := Heap -> Heap * outcome A.

(** [p.then(f)] *)
Definition then_ {A B} (p : Async A) (f : A -> Async B) : Async B :=
  fun h =>
    match p h with
    | (h', Resolved a) => f a h'
    | (h', Rejected err) => (h', Rejected err)
    | (h', Pending) => (h', Pending)
    end.

(** [p.catch(f)] *)
Definition catch_ {A} (p : Async A) (f : Error -> Async unit) : Async unit :=
  fun h =>
    match p h with
    | (h', Resolved _) => (h', Resolved tt)
    | (h', Rejected err) => f err h'
    | (h', Pending) => (h', Pending)
    end.

Declare Scope async_scope.
Delimit Scope async_scope with async.
Notation "p '.then(' x '=>' f ')'" := (then_ p (fun x => f))
  (at level 1, left associativity, x name, f at level 200,
   format "p '//' '.then(' x  '=>'  f ')'") : async_scope.
Notation "p '.catch(' x '=>' f ')'" := (catch_ p (fun x => f))
  (at level 1, left associativity, x name, f at level 200,
   format "p '//' '.catch(' x  '=>'  f ')'") : async_scope.

(** [arr.forEach(f)] for a body that may run out of fuel. *)
Fixpoint forEach {A S} (arr : list A) (f : A -> S -> option S) (s : S) : option S :=
  match arr with
  | [] => Some s
  | x :: rest => match f x s with
                 | Some s' => forEach rest f s'
                 | None => None
                 end
  end.

Section Pipeline.
Context `{Imports}.

(** *** [scanDir] *)

(** The body of [files.forEach(dirItem => ...)]: the state is
    [compileResults] and the [promises] array.  [scan] stands for the
    recursive call.  The promise pushed for an entry has no [reject]: it is
    resolved by the callback of [stat], by the [.then] of the recursive
    scan or by the [.then] of [getModuleFile], and stays pending when
    these do not resolve. *)
Definition scanDirItem
    (scan : string -> CompileResults.t -> option (CompileResults.t * outcome unit))
    (buildConfig : BuildConfig) (ctx : BuildContext) (dir dirItem : string)
    (st : CompileResults.t * list (outcome unit))
  : option (CompileResults.t * list (outcome unit)) :=
  let '(compileResults, promises) := st in
  let readPath := path_join (sys buildConfig) dir dirItem in
  if negb (isValidDirectory (exclude buildConfig) readPath) then
    Some (compileResults, promises)
  else
    match fs_stat (sys buildConfig) readPath with
    | Err err =>
        let diagnostics := catchError (CompileResults.diagnostics compileResults) err in
        Some (CompileResults.set_diagnostics compileResults diagnostics,
              Array_push promises (Resolved tt))
    | Ok stats =>
        if isDirectory stats then
          match scan readPath compileResults with
          | Some (compileResults', Resolved _) =>
              Some (compileResults', Array_push promises (Resolved tt))
          | Some (compileResults', _) =>
              Some (compileResults', Array_push promises Pending)
          | None => None
          end
        else if isTsSourceFile readPath then
          match getModuleFile buildConfig ctx readPath with
          | Resolved moduleFile =>
              let moduleFiles :=
                <[ModuleFile.tsFilePath moduleFile := moduleFile]>
                  (CompileResults.moduleFiles compileResults) in
              Some (CompileResults.set_moduleFiles compileResults moduleFiles,
                    Array_push promises (Resolved tt))
          | _ => Some (compileResults, Array_push promises Pending)
          end
        else
          Some (compileResults, Array_push promises (Resolved tt))
    end.

(** The promise that [scanDir] returns has no [reject] either: it is
    resolved when the listing fails, or in the [.then] of
    [Promise.all(promises)]. *)
Fixpoint scanDir (fuel : nat) (buildConfig : BuildConfig) (ctx : BuildContext)
    (dir : string) (compileResults : CompileResults.t)
  : option (CompileResults.t * outcome unit) :=
  match fuel with
  | O => None
  | S fuel' =>
      let dir := normalizePath dir in
      match fs_readdir (sys buildConfig) dir with
      | Err _ => Some (compileResults, Resolved tt)
      | Ok files =>
          match forEach files
                  (scanDirItem (scanDir fuel' buildConfig ctx) buildConfig ctx dir)
                  (compileResults, []) with
          | Some (compileResults', promises) =>
              match Promise_all promises with
              | Resolved _ => Some (compileResults', Resolved tt)
              | _ => Some (compileResults', Pending)
              end
          | None => None
          end
      end
  end.

(** *** [copySourceSassFilesToDest] *)

(** The callback of [compileResults.includedSassFiles.map(...)]. *)
Definition copySassFile (buildConfig : BuildConfig) (sassSrcPath : string)
    (ctx : BuildContext) : BuildContext * outcome unit :=
  let sys := sys buildConfig in
  let sassSrcPath := normalizePath sassSrcPath in
  match readFile sys sassSrcPath with
  | Resolved sassSrcText =>
      let includeDir := (String_indexOf sassSrcPath (src buildConfig) =? 0)%Z in
      let sassDestPath :=
        if includeDir then
          normalizePath (path_join sys
            (collectionDest buildConfig)
            (path_relative sys (src buildConfig) sassSrcPath))
        else
          normalizePath (path_join sys
            (rootDir buildConfig)
            (path_relative sys (rootDir buildConfig) sassSrcPath)) in
      (mkBuildContext (<[sassDestPath := sassSrcText]> (filesToWrite ctx)),
       Resolved tt)
  | Rejected err => (ctx, Rejected err)
  | Pending => (ctx, Pending)
  end.

(** [arr.map(f)] for a callback that returns a promise and writes to
    [ctx]. *)
Fixpoint mapPromises {A B} (f : A -> BuildContext -> BuildContext * outcome B)
    (arr : list A) (ctx : BuildContext) : BuildContext * list (outcome B) :=
  match arr with
  | [] => (ctx, [])
  | x :: rest =>
      let '(ctx1, p) := f x ctx in
      let '(ctx2, ps) := mapPromises f rest ctx1 in
      (ctx2, p :: ps)
  end.

Definition copySourceSassFilesToDest (buildConfig : BuildConfig) : Async (list unit) :=
  fun h =>
    if negb (generateCollection buildConfig) then (h, Resolved [])
    else
      let '(ctx', promises) :=
        mapPromises (copySassFile buildConfig)
          (CompileResults.includedSassFiles (compileResults h)) (ctx h) in
      (mkHeap (compileResults h) ctx', Promise_all promises).

(** *** [compileSrcDir] *)

(** The body of [moduleFile.includedSassFiles.forEach(...)]. *)
Definition addIncludedSassFile (includedSassFiles : list string)
    (includedSassFile : string) : list string :=
  if (Array_indexOf includedSassFiles includedSassFile =? -1)%Z
  then Array_push includedSassFiles includedSassFile
  else includedSassFiles.

(** The body of [Object.keys(transpileResults.moduleFiles).forEach(...)]. *)
Definition mergeModuleFile (buildConfig : BuildConfig) (h : Heap)
    (entry : string * ModuleFile.t) : Heap :=
  let '(tsFilePath, moduleFile) := entry in
  let compileResults1 :=
    CompileResults.set_moduleFiles (compileResults h)
      (<[tsFilePath := moduleFile]> (CompileResults.moduleFiles (compileResults h))) in
  let ctx1 :=
    if generateCollection buildConfig then
      mkBuildContext (<[ModuleFile.jsFilePath moduleFile := ModuleFile.jsText moduleFile]>
                        (filesToWrite (ctx h)))
    else ctx h in
  let compileResults2 :=
    match ModuleFile.includedSassFiles moduleFile with
    | Some included =>
        CompileResults.set_includedSassFiles compileResults1
          (fold_left addIncludedSassFile included
             (CompileResults.includedSassFiles compileResults1))
    | None => compileResults1
    end in
  mkHeap compileResults2 ctx1.

(** The callback [transpileResults => { ... }]. *)
Definition mergeTranspileResults (buildConfig : BuildConfig)
    (transpileResults : TranspileResults.t) : Async unit :=
  fun h =>
    let compileResults1 :=
      CompileResults.set_diagnostics (compileResults h)
        (CompileResults.diagnostics (compileResults h)
           ++ TranspileResults.diagnostics transpileResults) in
    let h1 := mkHeap compileResults1 (ctx h) in
    match TranspileResults.moduleFiles transpileResults with
    | Some entries => (fold_left (mergeModuleFile buildConfig) entries h1, Resolved tt)
    | None => (h1, Resolved tt)
    end.

Definition initialCompileResults : CompileResults.t :=
  CompileResults.mk ∅ [] EmptyManifest [].

Definition compileSrcDir (fuel : nat) (buildConfig : BuildConfig) (ctx0 : BuildContext)
  : option (Heap * outcome CompileResults.t) :=
  match scanDir fuel buildConfig ctx0 (src buildConfig) initialCompileResults with
  | None => None
  | Some (scanned, scanOutcome) =>
      let chain : Async CompileResults.t :=
        ((fun h => (h, scanOutcome))
          .then( _ => fun h =>
             (h, transpile buildConfig (ctx h)
                   (CompileResults.moduleFiles (compileResults h))))
          .then( transpileResults =>
             mergeTranspileResults buildConfig transpileResults)
          .then( _ => fun h =>
             match generateManifest buildConfig (ctx h) (compileResults h) with
             | Ok manifest =>
                 (mkHeap (CompileResults.set_manifest (compileResults h) manifest) (ctx h),
                  Resolved tt)
             | Err err => (h, Rejected err)
             end)
          .then( _ => copySourceSassFilesToDest buildConfig)
          .catch( err => fun h =>
             (mkHeap (CompileResults.set_diagnostics (compileResults h)
                        (catchError (CompileResults.diagnostics (compileResults h)) err))
                     (ctx h),
              Resolved tt))
          .then( _ => fun h => (h, Resolved (compileResults h))))%async in
      Some (chain (mkHeap scanned ctx0))
  end.

End Pipeline.

(** * Vocabulary of the properties *)

(** [pattern] occurs in [filePath]. *)
Definition contains (filePath pattern : string) : Prop :=
  ∃ before after, filePath = before +:+ pattern +:+ after.

(** [grows r r']: [r'] is [r] with more module files and more diagnostics
    at its end; nothing else differs. *)
Definition grows (r r' : CompileResults.t) : Prop :=
  dom (CompileResults.moduleFiles r) ⊆ dom (CompileResults.moduleFiles r') ∧
  CompileResults.diagnostics r `prefix_of` CompileResults.diagnostics r' ∧
  CompileResults.manifest r' = CompileResults.manifest r ∧
  CompileResults.includedSassFiles r' = CompileResults.includedSassFiles r.

Section ScanVocabulary.
Context `{Imports} (buildConfig : BuildConfig) (ctx : BuildContext).

(** [readPath] is an entry of the listing of [dir] that no exclude
    pattern rejects: the scan of [dir] calls [stat] on it. *)
Definition entryOf (dir readPath : string) : Prop :=
  ∃ files dirItem,
    fs_readdir (sys buildConfig) (normalizePath dir) = Ok files ∧
    dirItem ∈ files ∧
    readPath = path_join (sys buildConfig) (normalizePath dir) dirItem ∧
    isValidDirectory (exclude buildConfig) readPath = true.

Definition directoryAt (readPath : string) : Prop :=
  ∃ stats, fs_stat (sys buildConfig) readPath = Ok stats ∧ isDirectory stats = true.

Definition fileAt (readPath : string) : Prop :=
  ∃ stats, fs_stat (sys buildConfig) readPath = Ok stats ∧ isDirectory stats = false.

(** A compilable file: a file with a typed-script name. *)
Definition sourceFileAt (readPath : string) : Prop :=
  fileAt readPath ∧ isTsSourceFile readPath = true.

(** [scanPath dir chain readPath]: below [dir], the entry [readPath] is
    found by descending through the directories of [chain], whose last
    member is [readPath] itself.  Every member is an entry that no exclude
    pattern rejects. *)
Inductive scanPath : string → list string → string → Prop :=
| scanPath_entry dir readPath :
    entryOf dir readPath → scanPath dir [readPath] readPath
| scanPath_subdir dir sub chain readPath :
    entryOf dir sub → directoryAt sub → scanPath sub chain readPath →
    scanPath dir (sub :: chain) readPath.

(** The compilable files of the tree under [dir]. *)
Definition discovered (dir readPath : string) : Prop :=
  (∃ chain, scanPath dir chain readPath) ∧ sourceFileAt readPath.

(** The tree under [dir] is at most [n] directories deep. *)
Fixpoint finiteDepth (n : nat) (dir : string) : Prop :=
  match n with
  | O => False
  | S n' => ∀ sub, entryOf dir sub → directoryAt sub → finiteDepth n' sub
  end.

(** What one turn of the loop over the listing does. *)
Inductive scanDirItem_spec
    (scan : string → CompileResults.t → option (CompileResults.t * outcome unit))
    (readPath : string) (r : CompileResults.t) (promises : list (outcome unit))
  : CompileResults.t * list (outcome unit) → Prop :=
| item_excluded :
    isValidDirectory (exclude buildConfig) readPath = false →
    scanDirItem_spec scan readPath r promises (r, promises)
| item_stat_failed err :
    isValidDirectory (exclude buildConfig) readPath = true →
    fs_stat (sys buildConfig) readPath = Err err →
    scanDirItem_spec scan readPath r promises
      (CompileResults.set_diagnostics r (catchError (CompileResults.diagnostics r) err),
       promises ++ [Resolved tt])
| item_directory r' o :
    isValidDirectory (exclude buildConfig) readPath = true →
    directoryAt readPath →
    scan readPath r = Some (r', o) →
    scanDirItem_spec scan readPath r promises
      (r', promises ++ [match o with Resolved _ => Resolved tt | _ => Pending end])
| item_source_file moduleFile :
    isValidDirectory (exclude buildConfig) readPath = true →
    sourceFileAt readPath →
    getModuleFile buildConfig ctx readPath = Resolved moduleFile →
    scanDirItem_spec scan readPath r promises
      (CompileResults.set_moduleFiles r
         (<[ModuleFile.tsFilePath moduleFile := moduleFile]> (CompileResults.moduleFiles r)),
       promises ++ [Resolved tt])
| item_source_file_lost :
    isValidDirectory (exclude buildConfig) readPath = true →
    sourceFileAt readPath →
    (∀ moduleFile, getModuleFile buildConfig ctx readPath ≠ Resolved moduleFile) →
    scanDirItem_spec scan readPath r promises (r, promises ++ [Pending])
| item_other_file :
    isValidDirectory (exclude buildConfig) readPath = true →
    fileAt readPath →
    isTsSourceFile readPath = false →
    scanDirItem_spec scan readPath r promises (r, promises ++ [Resolved tt]).

(** Where [copySassFile] writes the asset [sassSrcPath]. *)
Definition mirrorDestination (sassSrcPath : string) : string :=
  let sys := sys buildConfig in
  let normalized := normalizePath sassSrcPath in
  if String.prefix (src buildConfig) normalized then
    normalizePath (path_join sys (collectionDest buildConfig)
                     (path_relative sys (src buildConfig) normalized))
  else
    normalizePath (path_join sys (rootDir buildConfig)
                     (path_relative sys (rootDir buildConfig) normalized)).

(** The promise that [copySassFile] returns ends as the read does. *)
Definition readOutcome (sassSrcPath : string) : outcome unit :=
  match readFile (sys buildConfig) (normalizePath sassSrcPath) with
  | Resolved _ => Resolved tt
  | Rejected err => Rejected err
  | Pending => Pending
  end.

End ScanVocabulary.

(** The members of [paths] that are neither in [seen] nor earlier in
    [paths], in the order of [paths]: each distinct path once, at the place
    of its first occurrence. *)
Fixpoint firstOccurrences (seen paths : list string) : list string :=
  match paths with
  | [] => []
  | path :: rest =>
      if decide (path ∈ seen) then firstOccurrences seen rest
      else path :: firstOccurrences (path :: seen) rest
  end.

(** The asset paths a unit refers to. *)
Definition unitAssets (moduleFile : ModuleFile.t) : list string :=
  default [] (ModuleFile.includedSassFiles moduleFile).

(** The asset paths of a sequence of units, in the order of discovery. *)
Definition referencedAssets (entries : list (string * ModuleFile.t)) : list string :=
  concat (map (λ entry, unitAssets entry.2) entries).

Section BuildVocabulary.
Context `{Imports} (buildConfig : BuildConfig) (ctx0 : BuildContext).

(** The heap after the callback that merges [transpileResults]. *)
Definition merged (transpileResults : TranspileResults.t) (h : Heap) : Heap :=
  (mergeTranspileResults buildConfig transpileResults h).1.

(** The heap after [compileResults.manifest = ...]. *)
Definition withManifest (h : Heap) (manifest : Manifest) : Heap :=
  mkHeap (CompileResults.set_manifest (compileResults h) manifest) (ctx h).

(** The heap after the [.catch] handler ran on [err]. *)
Definition withFault (h : Heap) (err : Error) : Heap :=
  mkHeap (CompileResults.set_diagnostics (compileResults h)
            (catchError (CompileResults.diagnostics (compileResults h)) err))
         (ctx h).

(** The ways the promise chain can run once the scan has resolved with
    [scanned]; the heap and the outcome at the end of each. *)
Inductive pipeline_spec (scanned : CompileResults.t)
  : Heap * outcome CompileResults.t → Prop :=
| transpile_pending :
    transpile buildConfig ctx0 (CompileResults.moduleFiles scanned) = Pending →
    pipeline_spec scanned (mkHeap scanned ctx0, Pending)
| transpile_rejected err :
    transpile buildConfig ctx0 (CompileResults.moduleFiles scanned) = Rejected err →
    pipeline_spec scanned
      (withFault (mkHeap scanned ctx0) err,
       Resolved (compileResults (withFault (mkHeap scanned ctx0) err)))
| manifest_thrown transpileResults err :
    transpile buildConfig ctx0 (CompileResults.moduleFiles scanned)
      = Resolved transpileResults →
    let h1 := merged transpileResults (mkHeap scanned ctx0) in
    generateManifest buildConfig (ctx h1) (compileResults h1) = Err err →
    pipeline_spec scanned (withFault h1 err, Resolved (compileResults (withFault h1 err)))
| copy_resolved transpileResults manifest h3 values :
    transpile buildConfig ctx0 (CompileResults.moduleFiles scanned)
      = Resolved transpileResults →
    let h1 := merged transpileResults (mkHeap scanned ctx0) in
    generateManifest buildConfig (ctx h1) (compileResults h1) = Ok manifest →
    copySourceSassFilesToDest buildConfig (withManifest h1 manifest)
      = (h3, Resolved values) →
    pipeline_spec scanned (h3, Resolved (compileResults h3))
| copy_rejected transpileResults manifest h3 err :
    transpile buildConfig ctx0 (CompileResults.moduleFiles scanned)
      = Resolved transpileResults →
    let h1 := merged transpileResults (mkHeap scanned ctx0) in
    generateManifest buildConfig (ctx h1) (compileResults h1) = Ok manifest →
    copySourceSassFilesToDest buildConfig (withManifest h1 manifest)
      = (h3, Rejected err) →
    pipeline_spec scanned (withFault h3 err, Resolved (compileResults (withFault h3 err)))
| copy_pending transpileResults manifest h3 :
    transpile buildConfig ctx0 (CompileResults.moduleFiles scanned)
      = Resolved transpileResults →
    let h1 := merged transpileResults (mkHeap scanned ctx0) in
    generateManifest buildConfig (ctx h1) (compileResults h1) = Ok manifest →
    copySourceSassFilesToDest buildConfig (withManifest h1 manifest) = (h3, Pending) →
    pipeline_spec scanned (h3, Pending).

(** The faults that the chain can meet once the scan has resolved with
    [scanned]: [transpile] rejects, [generateManifest] throws, or the
    mirroring of the assets rejects. *)
Inductive raisedAfterScan (scanned : CompileResults.t) : Error → Prop :=
| raised_by_transpile err :
    transpile buildConfig ctx0 (CompileResults.moduleFiles scanned) = Rejected err →
    raisedAfterScan scanned err
| raised_by_generateManifest transpileResults err :
    transpile buildConfig ctx0 (CompileResults.moduleFiles scanned)
      = Resolved transpileResults →
    let h1 := merged transpileResults (mkHeap scanned ctx0) in
    generateManifest buildConfig (ctx h1) (compileResults h1) = Err err →
    raisedAfterScan scanned err
| raised_by_copy transpileResults manifest err :
    transpile buildConfig ctx0 (CompileResults.moduleFiles scanned)
      = Resolved transpileResults →
    let h1 := merged transpileResults (mkHeap scanned ctx0) in
    generateManifest buildConfig (ctx h1) (compileResults h1) = Ok manifest →
    (copySourceSassFilesToDest buildConfig (withManifest h1 manifest)).2 = Rejected err →
    raisedAfterScan scanned err.

End BuildVocabulary.

(** * A small project

    A project tree on which the definitions can be run: two source files
    and one unreadable entry at the top, a sub-directory with a third
    source file, an excluded directory, and style sheets inside and
    outside the source root. *)

Module Scenario.

Definition backslash : ascii := ascii_of_nat 92.

(** Back-slashes become slashes. *)
Fixpoint slashes (s : string) : string :=
  match s with
  | EmptyString => EmptyString
  | String c s' => String (if Ascii.eqb c backslash then "/"%char else c) (slashes s')
  end.

(** An asset path written with back-slashes. *)
Definition windowsAsset : string :=
  "/proj/src" +:+ String backslash "styles" +:+ String backslash "a.scss".

Definition endsWith (s suffix : string) : bool :=
  String.eqb
    (substring (String.length s - String.length suffix) (String.length suffix) s)
    suffix.

Definition posix_join (dir item : string) : string := dir +:+ "/" +:+ item.

Definition posix_relative (from to : string) : string :=
  if String.prefix (from +:+ "/") to
  then substring (String.length from + 1) (String.length to) to
  else to.

Definition readdir (dir : string) : result (list string) :=
  if String.eqb dir "/proj/src"
  then Ok ["a.ts"; "b.ts"; "broken.ts"; "sub"; "ignored"; "styles"]
  else if String.eqb dir "/proj/src/sub" then Ok ["c.ts"]
  else if String.eqb dir "/proj/src/ignored" then Ok ["d.ts"]
  else if String.eqb dir "/proj/src/styles" then Ok ["a.scss"]
  else Err (mkError "ENOENT").

Definition stat (path : string) : result Stats :=
  if String.eqb path "/proj/src/sub" then Ok (mkStats true)
  else if String.eqb path "/proj/src/ignored" then Ok (mkStats true)
  else if String.eqb path "/proj/src/styles" then Ok (mkStats true)
  else if String.eqb path "/proj/src/broken.ts" then Err (mkError "EACCES")
  else Ok (mkStats false).

Definition fileSystem : Sys := mkSys readdir stat posix_join posix_relative.

Definition config : BuildConfig :=
  mkBuildConfig fileSystem "/proj/src" "/proj" "/proj/dist/collection" ["ignored"] true.

(** The same project with the unreadable entry excluded as well: no call
    to [stat] fails. *)
Definition configQuiet : BuildConfig :=
  mkBuildConfig fileSystem "/proj/src" "/proj" "/proj/dist/collection"
    ["ignored"; "broken"] true.

(** The same project built without a collection. *)
Definition configWithoutCollection : BuildConfig :=
  mkBuildConfig fileSystem "/proj/src" "/proj" "/proj/dist/collection" ["ignored"] false.

(** The same project with a source root that does not exist. *)
Definition configMissingRoot : BuildConfig :=
  mkBuildConfig fileSystem "/proj/missing" "/proj" "/proj/dist/collection" ["ignored"] true.

Definition moduleFileOf (tsFilePath : string) : ModuleFile.t :=
  ModuleFile.mk tsFilePath (tsFilePath +:+ ".js") "compiled"
    (if String.eqb tsFilePath "/proj/src/a.ts"
     then Some ["/proj/src/styles/a.scss"; "/proj/src/styles/missing.scss";
                "/proj/assets/shared.scss"]
     else if String.eqb tsFilePath "/proj/src/b.ts"
     then Some ["/proj/src/styles/a.scss"]
     else None).

(** The entries of [moduleFiles] under [keys], in that order. *)
Definition entriesOf (moduleFiles : gmap string ModuleFile.t) (keys : list string)
  : list (string * ModuleFile.t) :=
  omap (λ key, (λ moduleFile, (key, moduleFile)) <$> moduleFiles !! key) keys.

#[export] Instance imports : Imports := {|
  normalizePath := slashes;
  isTsSourceFile path := endsWith path ".ts";
  readFile _ path :=
    if String.eqb path "/proj/src/styles/a.scss" then Resolved "body {}"
    else if String.eqb path "/proj/assets/shared.scss" then Resolved "html {}"
    else Rejected (mkError "ENOENT");
  getModuleFile _ _ path := Resolved (moduleFileOf path);
  transpile _ _ moduleFiles :=
    Resolved (TranspileResults.mk []
                (Some (entriesOf moduleFiles
                         ["/proj/src/a.ts"; "/proj/src/b.ts"; "/proj/src/sub/c.ts"])));
  generateManifest _ _ _ := Ok (GeneratedManifest "manifest")
|}.

Definition emptyContext : BuildContext := mkBuildContext ∅.

(** The heap after the scan, and what [transpile] returns for it. *)
Definition scanned : CompileResults.t :=
  match scanDir 2 config emptyContext "/proj/src" initialCompileResults with
  | Some (r, _) => r
  | None => initialCompileResults
  end.

Definition transpiled : TranspileResults.t :=
  TranspileResults.mk []
    (Some (entriesOf (CompileResults.moduleFiles scanned)
             ["/proj/src/a.ts"; "/proj/src/b.ts"; "/proj/src/sub/c.ts"])).

End Scenario.

(** * Properties *)

(** ** Substring search *)

Lemma append_empty (s : string) : "" +:+ s = s.
Proof. reflexivity. Qed.

Lemma append_String (c : Ascii.ascii) (s t : string) :
  String c s +:+ t = String c (s +:+ t).
Proof. reflexivity. Qed.

Lemma prefix_true_iff (p s : string) :
  String.prefix p s = true ↔ ∃ rest, s = p +:+ rest.
Proof.
  revert s. induction p as [|a p IH]; intros s; simpl.
  - destruct s; split; eauto.
  - destruct s as [|b s]; simpl.
    + split; [discriminate | intros [rest Hr]; discriminate].
    + destruct (Ascii.ascii_dec a b) as [->|Hne].
      * rewrite IH. split; intros [rest Hr]; exists rest;
          rewrite append_String in *; congruence.
      * split; [discriminate | intros [rest Hr]; rewrite append_String in Hr; congruence].
Qed.

Lemma String_indexOf_from_nil (i : Z) (p : string) :
  String_indexOf_from i "" p = if String.prefix p "" then i else (-1)%Z.
Proof. reflexivity. Qed.

Lemma String_indexOf_from_cons (i : Z) (c : Ascii.ascii) (s p : string) :
  String_indexOf_from i (String c s) p =
  if String.prefix p (String c s) then i else String_indexOf_from (i + 1)%Z s p.
Proof. reflexivity. Qed.

Lemma String_indexOf_from_range (i : Z) (s p : string) :
  String_indexOf_from i s p = (-1)%Z ∨ (i ≤ String_indexOf_from i s p)%Z.
Proof.
  revert i. induction s as [|c s IH]; intros i.
  - rewrite String_indexOf_from_nil.
    destruct (String.prefix p ""); [right; lia | left; reflexivity].
  - rewrite String_indexOf_from_cons.
    destruct (String.prefix p (String c s)); [right; lia |].
    destruct (IH (i + 1)%Z); [by left | right; lia].
Qed.

Lemma String_indexOf_from_found (i : Z) (s p : string) :
  (0 ≤ i)%Z →
  (String_indexOf_from i s p >? -1)%Z = true ↔ contains s p.
Proof.
  revert i. induction s as [|c s IH]; intros i Hi.
  - rewrite String_indexOf_from_nil.
    destruct (String.prefix p "") eqn:Hp.
    + split; [intros _ | intros _; apply Z.gtb_lt; lia].
      apply prefix_true_iff in Hp as [rest Hr]. by exists "", rest.
    + split; [discriminate |].
      intros ([|? ?] & after & Heq); [| discriminate].
      rewrite append_empty in Heq. assert (String.prefix p "" = true); [| congruence].
      apply prefix_true_iff. eauto.
  - rewrite String_indexOf_from_cons.
    destruct (String.prefix p (String c s)) eqn:Hp.
    + split; [intros _ | intros _; apply Z.gtb_lt; lia].
      apply prefix_true_iff in Hp as [rest Hr]. by exists "", rest.
    + rewrite IH by lia. split.
      * intros (before & after & ->). by exists (String c before), after.
      * intros ([|c' before] & after & Heq).
        -- rewrite append_empty in Heq.
           assert (String.prefix p (String c s) = true); [| congruence].
           apply prefix_true_iff. eauto.
        -- rewrite append_String in Heq. injection Heq as -> ->.
           by exists before, after.
Qed.

Lemma String_indexOf_found (s p : string) :
  (String_indexOf s p >? -1)%Z = true ↔ contains s p.
Proof. by apply String_indexOf_from_found. Qed.

(** [s.indexOf(p) === 0] is the prefix test. *)
Lemma String_indexOf_zero (s p : string) :
  (String_indexOf s p =? 0)%Z = String.prefix p s.
Proof.
  unfold String_indexOf. destruct s as [|c s].
  - rewrite String_indexOf_from_nil. by destruct (String.prefix p "").
  - rewrite String_indexOf_from_cons.
    destruct (String.prefix p (String c s)); [done |].
    destruct (String_indexOf_from_range (0 + 1) s p) as [-> | Hle]; [done |].
    apply Z.eqb_neq. lia.
Qed.

Lemma Array_indexOf_from_absent (i : Z) (arr : list string) (x : string) :
  (0 ≤ i)%Z →
  (Array_indexOf_from i arr x =? -1)%Z = true ↔ x ∉ arr.
Proof.
  revert i. induction arr as [|y arr IH]; intros i Hi; simpl.
  - split; [intros _; apply not_elem_of_nil | done].
  - destruct (String.eqb_spec y x) as [->|Hne].
    + split; [intros Heq; apply Z.eqb_eq in Heq; lia |].
      intros Hnot. exfalso. apply Hnot. left.
    + rewrite IH by lia. rewrite not_elem_of_cons. naive_solver.
Qed.

Lemma Array_indexOf_absent (arr : list string) (x : string) :
  (Array_indexOf arr x =? -1)%Z = true ↔ x ∉ arr.
Proof. by apply Array_indexOf_from_absent. Qed.

(** ** [isValidDirectory] is the substring test over the exclude list *)

Lemma isValidDirectory_false_iff (exclude : list string) (filePath : string) :
  isValidDirectory exclude filePath = false ↔
  ∃ pattern, pattern ∈ exclude ∧ contains filePath pattern.
Proof.
  induction exclude as [|p rest IH]; simpl.
  - split; [discriminate | intros (? & Hin & _); by apply elem_of_nil in Hin].
  - destruct (String_indexOf filePath p >? -1)%Z eqn:Hidx.
    + split; [intros _ | done].
      exists p. split; [left | by apply String_indexOf_found].
    + rewrite IH. split.
      * intros (q & Hq & Hc). exists q. split; [by right | done].
      * intros (q & Hq & Hc). apply elem_of_cons in Hq as [-> | Hq].
        -- apply String_indexOf_found in Hc. congruence.
        -- eauto.
Qed.

Lemma isValidDirectory_true_iff (exclude : list string) (filePath : string) :
  isValidDirectory exclude filePath = true ↔
  ∀ pattern, pattern ∈ exclude → ¬ contains filePath pattern.
Proof.
  destruct (isValidDirectory exclude filePath) eqn:Hv.
  - split; [intros _ q Hq Hc | done].
    assert (isValidDirectory exclude filePath = false); [| congruence].
    apply isValidDirectory_false_iff. eauto.
  - apply isValidDirectory_false_iff in Hv as (q & Hq & Hc).
    split; [discriminate | intros Hall; exfalso; by eapply Hall].
Qed.

(** ** Loops *)

Lemma forEach_cons {A S} (x : A) (rest : list A) (f : A → S → option S) (s : S) :
  forEach (x :: rest) f s =
  match f x s with
  | Some s' => forEach rest f s'
  | None => None
  end.
Proof. reflexivity. Qed.

Lemma forEach_app {A S} (l1 l2 : list A) (f : A → S → option S) (s : S) :
  forEach (l1 ++ l2) f s =
  match forEach l1 f s with
  | Some s1 => forEach l2 f s1
  | None => None
  end.
Proof.
  revert s. induction l1 as [|x l1 IH]; intros s; simpl; [done |].
  destruct (f x s); [apply IH | done].
Qed.

(** An invariant of the loop body is an invariant of the loop. *)
Lemma forEach_invariant {A S} (P : S → Prop) (arr : list A) (f : A → S → option S) :
  (∀ x s s', x ∈ arr → P s → f x s = Some s' → P s') →
  ∀ s s', P s → forEach arr f s = Some s' → P s'.
Proof.
  induction arr as [|x arr IH]; intros Hstep s s' Hs Hrun; simpl in Hrun.
  - by injection Hrun as <-.
  - destruct (f x s) as [s1|] eqn:Hx; [| done].
    eapply IH; [| | exact Hrun].
    + intros y t t' Hy. apply Hstep. by right.
    + eapply Hstep; [left | exact Hs | exact Hx].
Qed.

(** The loop stops only when its body does. *)
Lemma forEach_is_Some {A S} (arr : list A) (f : A → S → option S) :
  (∀ x s, x ∈ arr → is_Some (f x s)) →
  ∀ s, is_Some (forEach arr f s).
Proof.
  induction arr as [|x arr IH]; intros Hstep s; simpl; [by eexists |].
  destruct (Hstep x s) as [s1 ->]; [left |].
  apply IH. intros y t Hy. apply Hstep. by right.
Qed.

(** Every element of the array gets its turn. *)
Lemma forEach_elem {A S} (arr : list A) (f : A → S → option S) (x : A) (s s' : S) :
  x ∈ arr → forEach arr f s = Some s' →
  ∃ before after s1 s2,
    arr = before ++ x :: after ∧
    forEach before f s = Some s1 ∧ f x s1 = Some s2 ∧ forEach after f s2 = Some s'.
Proof.
  intros Hx Hrun. apply list_elem_of_split in Hx as (before & after & ->).
  rewrite forEach_app in Hrun.
  destruct (forEach before f s) as [s1|] eqn:H1; [| done].
  simpl in Hrun. destruct (f x s1) as [s2|] eqn:H2; [| done].
  by exists before, after, s1, s2.
Qed.

(** ** [Promise.all] *)

Lemma Promise_all_Resolved_iff {A} (ps : list (outcome A)) :
  (∃ vs, Promise_all ps = Resolved vs) ↔ ∀ p, p ∈ ps → ∃ v, p = Resolved v.
Proof.
  induction ps as [|p ps IH]; simpl.
  - split; [intros _ p Hp; by apply elem_of_nil in Hp | eauto].
  - split.
    + intros [vs Hvs] q Hq.
      destruct p as [a | err | ]; [| done | by destruct (Promise_all ps)].
      destruct (Promise_all ps) as [ws | |] eqn:Hps; [| done | done].
      apply elem_of_cons in Hq as [-> | Hq]; [eauto |].
      apply IH; eauto.
    + intros Hall. destruct (Hall p) as [a ->]; [left |].
      destruct (proj2 IH) as [ws ->]; [| eauto].
      intros q Hq. apply Hall. by right.
Qed.

(** A rejection comes from a member. *)
Lemma Promise_all_Rejected {A} (ps : list (outcome A)) (err : Error) :
  Promise_all ps = Rejected err → Rejected err ∈ ps.
Proof.
  induction ps as [|p ps IH]; simpl; [done |].
  destruct p as [a | err' | ].
  - destruct (Promise_all ps); [done | | done].
    intros [= ->]. right. by apply IH.
  - intros [= ->]. left.
  - destruct (Promise_all ps); [done | | done].
    intros [= ->]. right. by apply IH.
Qed.

(** ** The scan *)

Lemma grows_refl (r : CompileResults.t) : grows r r.
Proof. by repeat split. Qed.

Lemma grows_trans (r1 r2 r3 : CompileResults.t) :
  grows r1 r2 → grows r2 r3 → grows r1 r3.
Proof.
  intros (Hd1 & Hp1 & Hm1 & Hi1) (Hd2 & Hp2 & Hm2 & Hi2).
  repeat split; [set_solver | by etrans | congruence | congruence].
Qed.

Section Scan.
Context `{Imports} (buildConfig : BuildConfig) (ctx : BuildContext).

Lemma scanDirItem_inv scan dir dirItem r promises st' :
  scanDirItem scan buildConfig ctx dir dirItem (r, promises) = Some st' →
  scanDirItem_spec buildConfig ctx scan (path_join (sys buildConfig) dir dirItem) r promises st'.
Proof.
  unfold scanDirItem. set (readPath := path_join _ dir dirItem).
  destruct (isValidDirectory (exclude buildConfig) readPath) eqn:Hvalid; simpl.
  2: { intros [= <-]. by constructor. }
  destruct (fs_stat (sys buildConfig) readPath) as [stats | err] eqn:Hstat.
  2: { intros [= <-]. by econstructor. }
  destruct (isDirectory stats) eqn:Hdir.
  { destruct (scan readPath r) as [[r' o]|] eqn:Hscan; [| done].
    intros Hst. replace st' with
      (r', promises ++ [match o with Resolved _ => Resolved tt | _ => Pending end]).
    - apply item_directory; [done | by exists stats | done].
    - destruct o; by injection Hst. }
  destruct (isTsSourceFile readPath) eqn:Hts.
  2: { intros [= <-]. apply item_other_file; [done | by exists stats | done]. }
  assert (sourceFileAt buildConfig readPath) by (split; [by exists stats | done]).
  destruct (getModuleFile buildConfig ctx readPath) as [moduleFile | err |] eqn:Hmf;
    intros [= <-].
  - by apply item_source_file.
  - apply item_source_file_lost; [done | done | congruence].
  - apply item_source_file_lost; [done | done | congruence].
Qed.

Lemma scanDir_S fuel dir r :
  scanDir (S fuel) buildConfig ctx dir r =
  match fs_readdir (sys buildConfig) (normalizePath dir) with
  | Err _ => Some (r, Resolved tt)
  | Ok files =>
      match forEach files
              (scanDirItem (scanDir fuel buildConfig ctx) buildConfig ctx (normalizePath dir))
              (r, []) with
      | Some (r', promises) =>
          match Promise_all promises with
          | Resolved _ => Some (r', Resolved tt)
          | _ => Some (r', Pending)
          end
      | None => None
      end
  end.
Proof. reflexivity. Qed.

(** The scan's result, opened up: either the listing failed and nothing
    changed, or the loop over the listing ran. *)
Lemma scanDir_inv fuel dir r r' o :
  scanDir fuel buildConfig ctx dir r = Some (r', o) →
  ∃ fuel', fuel = S fuel' ∧
    ((∃ err, fs_readdir (sys buildConfig) (normalizePath dir) = Err err ∧
             r' = r ∧ o = Resolved tt) ∨
     (∃ files promises,
         fs_readdir (sys buildConfig) (normalizePath dir) = Ok files ∧
         forEach files
           (scanDirItem (scanDir fuel' buildConfig ctx) buildConfig ctx (normalizePath dir))
           (r, []) = Some (r', promises) ∧
         o = match Promise_all promises with
             | Resolved _ => Resolved tt
             | _ => Pending
             end)).
Proof.
  destruct fuel as [|fuel']; [done |]. rewrite scanDir_S. intros Hrun.
  exists fuel'. split; [done |].
  destruct (fs_readdir (sys buildConfig) (normalizePath dir)) as [files | err].
  - right. destruct (forEach files _ (r, [])) as [[r1 promises]|] eqn:Hloop; [| done].
    exists files, promises. split; [done |].
    destruct (Promise_all promises); injection Hrun as <- <-; by split.
  - left. injection Hrun as <- <-. by exists err.
Qed.

(** The scan never rejects. *)
Lemma scanDir_outcome fuel dir r r' o :
  scanDir fuel buildConfig ctx dir r = Some (r', o) → o = Resolved tt ∨ o = Pending.
Proof.
  intros Hrun. apply scanDir_inv in Hrun as (fuel' & _ & [(err & _ & _ & ->) | Hloop]).
  - by left.
  - destruct Hloop as (files & promises & _ & _ & ->).
    destruct (Promise_all promises); auto.
Qed.

(** The scan only adds module files and diagnostics. *)
Lemma scanDir_grows fuel dir r r' o :
  scanDir fuel buildConfig ctx dir r = Some (r', o) → grows r r'.
Proof.
  revert dir r r' o. induction fuel as [|fuel IH]; intros dir r r' o Hrun; [done |].
  apply scanDir_inv in Hrun as (fuel' & [= <-] & [(err & _ & -> & _) | Hloop]).
  { apply grows_refl. }
  destruct Hloop as (files & promises & _ & Hloop & _).
  apply (forEach_invariant (λ st, grows r st.1)) in Hloop; [done | | apply grows_refl].
  intros dirItem [r1 ps] st' _ Hr1 Hitem. simpl in Hr1.
  apply scanDirItem_inv in Hitem.
  destruct Hitem; simpl; try done.
  - eapply grows_trans; [exact Hr1 |].
    repeat split; simpl; [done | by apply prefix_app_r].
  - eapply grows_trans; [exact Hr1 | by eapply IH].
  - eapply grows_trans; [exact Hr1 |].
    repeat split; simpl; [| done]. rewrite dom_insert_L. set_solver.
Qed.

(** Closes a goal whose hypotheses disagree about what [stat] answered. *)
Ltac stat_clash :=
  repeat match goal with
         | H : directoryAt _ _ |- _ => destruct H as (? & ? & ?)
         | H : sourceFileAt _ _ |- _ => destruct H as [? ?]
         | H : fileAt _ _ |- _ => destruct H as (? & ? & ?)
         end;
  congruence.

(** The loop over a listing only adds module files and diagnostics. *)
Lemma scanLoop_grows fuel dir files st st' :
  forEach files
    (scanDirItem (scanDir fuel buildConfig ctx) buildConfig ctx dir) st = Some st' →
  grows st.1 st'.1.
Proof.
  apply (forEach_invariant (λ t, grows st.1 t.1)); [| apply grows_refl].
  intros dirItem [r1 ps] t _ Hr1 Hitem. simpl in Hr1.
  apply scanDirItem_inv in Hitem.
  destruct Hitem; simpl; try done.
  - eapply grows_trans; [exact Hr1 |].
    repeat split; simpl; [done | by apply prefix_app_r].
  - eapply grows_trans; [exact Hr1 | by eapply scanDir_grows].
  - eapply grows_trans; [exact Hr1 |].
    repeat split; simpl; [| done]. rewrite dom_insert_L. set_solver.
Qed.

Lemma entryOf_intro dir files dirItem :
  fs_readdir (sys buildConfig) (normalizePath dir) = Ok files →
  dirItem ∈ files →
  isValidDirectory (exclude buildConfig)
    (path_join (sys buildConfig) (normalizePath dir) dirItem) = true →
  entryOf buildConfig dir (path_join (sys buildConfig) (normalizePath dir) dirItem).
Proof. intros. by exists files, dirItem. Qed.

Lemma discovered_entry dir readPath :
  entryOf buildConfig dir readPath → sourceFileAt buildConfig readPath →
  discovered buildConfig dir readPath.
Proof. intros He Hs. split; [| done]. exists [readPath]. by constructor. Qed.

Lemma discovered_subdir dir sub readPath :
  entryOf buildConfig dir sub → directoryAt buildConfig sub →
  discovered buildConfig sub readPath → discovered buildConfig dir readPath.
Proof.
  intros He Hd [[chain Hc] Hs]. split; [| done].
  exists (sub :: chain). by constructor.
Qed.

(** Soundness: a module file that the scan added was returned by
    [getModuleFile] for a compilable file of the tree. *)
Lemma scanDir_sound fuel dir r r' o :
  scanDir fuel buildConfig ctx dir r = Some (r', o) →
  ∀ key moduleFile,
    CompileResults.moduleFiles r' !! key = Some moduleFile →
    CompileResults.moduleFiles r !! key = Some moduleFile ∨
    ∃ readPath,
      discovered buildConfig dir readPath ∧
      getModuleFile buildConfig ctx readPath = Resolved moduleFile ∧
      ModuleFile.tsFilePath moduleFile = key.
Proof.
  revert dir r r' o. induction fuel as [|fuel IH]; intros dir r r' o Hrun; [done |].
  apply scanDir_inv in Hrun as (fuel' & [= <-] & [(err & _ & -> & _) | Hloop]).
  { intros key moduleFile Hkey. by left. }
  destruct Hloop as (files & promises & Hdir & Hloop & _).
  revert Hloop.
  apply (forEach_invariant (λ st, ∀ key moduleFile,
    CompileResults.moduleFiles st.1 !! key = Some moduleFile →
    CompileResults.moduleFiles r !! key = Some moduleFile ∨
    ∃ readPath,
      discovered buildConfig dir readPath ∧
      getModuleFile buildConfig ctx readPath = Resolved moduleFile ∧
      ModuleFile.tsFilePath moduleFile = key)); [| by left].
  intros dirItem [r1 ps] st' Hin Hr1 Hitem. simpl in Hr1.
  apply scanDirItem_inv in Hitem.
  destruct Hitem as [ | | r1' o1 Hvalid Hisdir Hsub | moduleFile' Hvalid Hsrc Hmf | | ];
    simpl; try done.
  - intros key moduleFile Hkey.
    destruct (IH _ _ _ _ Hsub key moduleFile Hkey) as [Hold | (readPath & Hd & Hg & Hk)].
    + by apply Hr1.
    + right. exists readPath. split; [| done].
      eapply discovered_subdir; [| exact Hisdir | exact Hd].
      by apply entryOf_intro with files.
  - intros key moduleFile Hkey.
    destruct (decide (ModuleFile.tsFilePath moduleFile' = key)) as [<- | Hne].
    + rewrite lookup_insert_eq in Hkey. injection Hkey as <-.
      right. eexists. split; [| done].
      apply discovered_entry; [| done]. by apply entryOf_intro with files.
    + rewrite lookup_insert_ne in Hkey by done. by apply Hr1.
Qed.

(** Completeness: every compilable file of the tree for which
    [getModuleFile] resolves has its module file in the map. *)
Lemma scanDir_complete fuel dir r r' o :
  scanDir fuel buildConfig ctx dir r = Some (r', o) →
  ∀ readPath moduleFile,
    discovered buildConfig dir readPath →
    getModuleFile buildConfig ctx readPath = Resolved moduleFile →
    ModuleFile.tsFilePath moduleFile ∈ dom (CompileResults.moduleFiles r').
Proof.
  revert dir r r' o. induction fuel as [|fuel IH]; intros dir r r' o Hrun; [done |].
  intros readPath moduleFile [[chain Hchain] Hsrc] Hmf.
  apply scanDir_inv in Hrun as (fuel' & [= <-] & Hrun).
  assert (∃ first, entryOf buildConfig dir first ∧
            (first = readPath ∨
             (directoryAt buildConfig first ∧ discovered buildConfig first readPath)))
    as (first & (files & dirItem & Hdir & Hin & -> & Hvalid) & Hfirst).
  { inversion Hchain; subst; eexists; split; eauto.
    right. split; [done |]. split; [eauto | done]. }
  destruct Hrun as [(err & Hdir' & _) | (files' & promises & Hdir' & Hloop & _)];
    [congruence |].
  assert (files' = files) as -> by congruence.
  destruct (forEach_elem _ _ _ _ _ Hin Hloop)
    as (before & after & [r1 ps1] & [r2 ps2] & _ & _ & Hitem & Hafter).
  apply scanLoop_grows in Hafter as (Hdom & _). simpl in Hdom.
  apply Hdom. clear Hdom Hloop.
  apply scanDirItem_inv in Hitem.
  destruct Hfirst as [Heq | [(stats & Hstat & Hisdir) Hbelow]].
  - rewrite Heq in *.
    inversion Hitem
      as [Hv | err Hv Hst | r1' o1 Hv Hd Hsub | moduleFile' Hv Hsrc' Hmf'
          | Hv Hsrc' Hlost | Hv Hf Hts']; subst; try stat_clash.
    simpl. rewrite dom_insert_L.
    assert (moduleFile' = moduleFile) as -> by congruence. set_solver.
  - assert (directoryAt buildConfig (path_join (sys buildConfig) (normalizePath dir) dirItem))
      as Hisdir' by (by exists stats).
    inversion Hitem
      as [Hv | err Hv Hst | r1' o1 Hv Hd Hsub | moduleFile' Hv Hsrc' Hmf'
          | Hv Hsrc' Hlost | Hv Hf Hts']; subst; try stat_clash.
    by eapply IH.
Qed.

(** Totality: a tree of depth at most [n] is scanned with fuel [n]. *)
Lemma scanDir_total n dir r :
  finiteDepth buildConfig n dir → is_Some (scanDir n buildConfig ctx dir r).
Proof.
  revert dir r. induction n as [|n IH]; intros dir r Hdepth; [done |].
  rewrite scanDir_S.
  destruct (fs_readdir (sys buildConfig) (normalizePath dir)) as [files | err] eqn:Hdir;
    [| by eexists].
  destruct (forEach_is_Some files
    (scanDirItem (scanDir n buildConfig ctx) buildConfig ctx (normalizePath dir)))
    with (s := (r, @nil (outcome unit))) as [[r' promises] ->].
  2: { destruct (Promise_all promises); by eexists. }
  intros dirItem [r1 ps] Hin. unfold scanDirItem.
  destruct (isValidDirectory _ _) eqn:Hvalid; simpl; [| by eexists].
  destruct (fs_stat _ _) as [stats | err] eqn:Hstat; [| by eexists].
  destruct (isDirectory stats) eqn:Hisdir.
  - destruct (IH (path_join (sys buildConfig) (normalizePath dir) dirItem) r1)
      as [[r2 o2] ->].
    + apply Hdepth; [by apply entryOf_intro with files | by exists stats].
    + destruct o2; by eexists.
  - destruct (isTsSourceFile _); [| by eexists].
    destruct (getModuleFile _ _ _); by eexists.
Qed.

(** More fuel than needed changes nothing. *)
Lemma scanDir_fuel_mono n m dir r res :
  scanDir n buildConfig ctx dir r = Some res → (n ≤ m)%nat →
  scanDir m buildConfig ctx dir r = Some res.
Proof.
  revert m dir r res. induction n as [|n IH]; intros m dir r res Hrun Hle; [done |].
  destruct m as [|m]; [lia |]. rewrite scanDir_S in *.
  destruct (fs_readdir (sys buildConfig) (normalizePath dir)) as [files | err]; [| done].
  set (f k := scanDirItem (scanDir k buildConfig ctx) buildConfig ctx (normalizePath dir)).
  assert (∀ st st', forEach files (f n) st = Some st' → forEach files (f m) st = Some st')
    as Hloop.
  { clear Hrun. induction files as [|x files IHf]; intros st st'; simpl; [done |].
    destruct (f n x st) as [st1|] eqn:Hx; [| done].
    assert (f m x st = Some st1) as ->.
    { revert Hx. unfold f, scanDirItem. destruct st as [r1 ps].
      destruct (negb _); [done |]. destruct (fs_stat _ _) as [stats|]; [| done].
      destruct (isDirectory stats); [| done].
      destruct (scanDir n _ _ _ _) as [res1|] eqn:Hsub; [| done].
      by rewrite (IH m _ _ _ Hsub) by lia. }
    apply IHf. }
  fold (f n) in Hrun. fold (f m).
  destruct (forEach files (f n) (r, [])) as [st'|] eqn:Hn; [| done].
  by rewrite (Hloop _ _ Hn).
Qed.

(** The scan settles when [getModuleFile] resolves for every compilable
    file of the tree. *)
Lemma scanDir_resolves fuel dir r r' o :
  scanDir fuel buildConfig ctx dir r = Some (r', o) →
  (∀ readPath, discovered buildConfig dir readPath →
               ∃ moduleFile, getModuleFile buildConfig ctx readPath = Resolved moduleFile) →
  o = Resolved tt.
Proof.
  revert dir r r' o. induction fuel as [|fuel IH]; intros dir r r' o Hrun Hall; [done |].
  apply scanDir_inv in Hrun as (fuel' & [= <-] & [(err & _ & _ & ->) | Hloop]); [done |].
  destruct Hloop as (files & promises & Hdir & Hloop & ->).
  assert (∀ p, p ∈ promises → ∃ v, p = Resolved v) as Hps.
  { revert Hloop.
    apply (forEach_invariant (λ st, ∀ p, p ∈ st.2 → ∃ v, p = Resolved v));
      [| intros p Hp; by apply elem_of_nil in Hp].
    intros dirItem [r1 ps] st' Hin Hr1 Hitem. simpl in Hr1.
    apply scanDirItem_inv in Hitem.
    assert (∀ p, p ∈ ps ++ [Resolved tt] → ∃ v : unit, p = Resolved v) as Hpush.
    { intros p [Hp | Hp%list_elem_of_singleton]%elem_of_app; eauto. }
    destruct Hitem as [ | | r1' o1 Hvalid Hisdir Hsub | | Hvalid Hsrc Hlost | ];
      simpl; try done.
    - rewrite (IH _ _ _ _ Hsub); [done |].
      intros readPath Hd. apply Hall.
      eapply discovered_subdir; [| exact Hisdir | exact Hd].
      by apply entryOf_intro with files.
    - destruct (Hall (path_join (sys buildConfig) (normalizePath dir) dirItem))
        as [moduleFile Hmf].
      + apply discovered_entry; [| done]. by apply entryOf_intro with files.
      + by apply Hlost in Hmf. }
  apply Promise_all_Resolved_iff in Hps as [vs ->]. done.
Qed.

(** The scan never settles when [getModuleFile] does not resolve for a
    compilable file of the tree: nothing handles that promise. *)
Lemma scanDir_pending fuel dir r r' o readPath :
  scanDir fuel buildConfig ctx dir r = Some (r', o) →
  discovered buildConfig dir readPath →
  (∀ moduleFile, getModuleFile buildConfig ctx readPath ≠ Resolved moduleFile) →
  o = Pending.
Proof.
  revert dir r r' o. induction fuel as [|fuel IH]; intros dir r r' o Hrun; [done |].
  intros [[chain Hchain] Hsrc] Hlost.
  apply scanDir_inv in Hrun as (fuel' & [= <-] & Hrun).
  assert (∃ first, entryOf buildConfig dir first ∧
            (first = readPath ∨
             (directoryAt buildConfig first ∧ discovered buildConfig first readPath)))
    as (first & (files & dirItem & Hdir & Hin & -> & Hvalid) & Hfirst).
  { inversion Hchain; subst; eexists; split; eauto.
    right. split; [done |]. split; [eauto | done]. }
  destruct Hrun as [(err & Hdir' & _) | (files' & promises & Hdir' & Hloop & ->)];
    [congruence |].
  assert (files' = files) as -> by congruence.
  destruct (forEach_elem _ _ _ _ _ Hin Hloop)
    as (before & after & [r1 ps1] & [r2 ps2] & _ & _ & Hitem & Hafter).
  assert (Pending ∈ ps2) as Hpending.
  { apply scanDirItem_inv in Hitem.
    destruct Hfirst as [Heq | [Hisdir Hbelow]].
    - rewrite Heq in *.
      inversion Hitem
        as [Hv | err Hv Hst | r1' o1 Hv Hd Hsub | moduleFile' Hv Hsrc' Hmf'
            | Hv Hsrc' Hlost' | Hv Hf Hts']; subst; try stat_clash;
        try (exfalso; by eapply Hlost).
      set_solver.
    - inversion Hitem
        as [Hv | err Hv Hst | r1' o1 Hv Hd Hsub | moduleFile' Hv Hsrc' Hmf'
            | Hv Hsrc' Hlost' | Hv Hf Hts']; subst; try stat_clash.
      rewrite (IH _ _ _ _ Hsub Hbelow Hlost). set_solver. }
  assert (Pending ∈ promises) as Hpending'.
  { revert Hafter.
    apply (forEach_invariant (λ st : CompileResults.t * list (outcome unit), Pending ∈ st.2));
      [| done].
    intros x [r3 ps3] st' _ Hp Hx. simpl in Hp.
    apply scanDirItem_inv in Hx. destruct Hx; simpl; set_solver. }
  destruct (Promise_all promises) as [vs | err |] eqn:Hall; [| done | done].
  assert (∃ vs, Promise_all promises = Resolved vs) as Hres by eauto.
  rewrite Promise_all_Resolved_iff in Hres.
  by destruct (Hres Pending Hpending').
Qed.

(** A failed [stat] leaves its diagnostic, wherever in the tree it
    happens. *)
Lemma scanDir_stat_failure fuel dir r r' o :
  scanDir fuel buildConfig ctx dir r = Some (r', o) →
  ∀ chain readPath err,
    scanPath buildConfig dir chain readPath →
    fs_stat (sys buildConfig) readPath = Err err →
    mkDiagnostic LevelError (message err) ∈ CompileResults.diagnostics r'.
Proof.
  revert dir r r' o. induction fuel as [|fuel IH]; intros dir r r' o Hrun; [done |].
  intros chain readPath err Hchain Herr.
  apply scanDir_inv in Hrun as (fuel' & [= <-] & Hrun).
  assert (∃ first, entryOf buildConfig dir first ∧
            (first = readPath ∨
             (directoryAt buildConfig first ∧
              ∃ chain', scanPath buildConfig first chain' readPath)))
    as (first & (files & dirItem & Hdir & Hin & -> & Hvalid) & Hfirst).
  { inversion Hchain; subst; eexists; split; eauto. }
  destruct Hrun as [(err' & Hdir' & _) | (files' & promises & Hdir' & Hloop & _)];
    [congruence |].
  assert (files' = files) as -> by congruence.
  destruct (forEach_elem _ _ _ _ _ Hin Hloop)
    as (before & after & [r1 ps1] & [r2 ps2] & _ & _ & Hitem & Hafter).
  apply scanLoop_grows in Hafter as (_ & Hpre & _). simpl in Hpre.
  eapply elem_of_prefix; [| exact Hpre]. clear Hpre Hloop.
  apply scanDirItem_inv in Hitem.
  destruct Hfirst as [Heq | [Hisdir (chain' & Hchain')]].
  - rewrite Heq in *.
    inversion Hitem
      as [Hv | err' Hv Hst | r1' o1 Hv Hd Hsub | moduleFile' Hv Hsrc' Hmf'
          | Hv Hsrc' Hlost | Hv Hf Hts']; subst; try stat_clash.
    simpl. unfold catchError, Array_push.
    assert (err' = err) as -> by congruence.
    apply elem_of_app. right. left.
  - inversion Hitem
      as [Hv | err' Hv Hst | r1' o1 Hv Hd Hsub | moduleFile' Hv Hsrc' Hmf'
          | Hv Hsrc' Hlost | Hv Hf Hts']; subst; try stat_clash.
    by eapply IH.
Qed.

(** Without a failed [stat] the scan adds no diagnostic. *)
Lemma scanDir_quiet fuel dir r r' o :
  scanDir fuel buildConfig ctx dir r = Some (r', o) →
  (∀ chain readPath err,
      scanPath buildConfig dir chain readPath →
      fs_stat (sys buildConfig) readPath ≠ Err err) →
  CompileResults.diagnostics r' = CompileResults.diagnostics r.
Proof.
  revert dir r r' o. induction fuel as [|fuel IH]; intros dir r r' o Hrun Hok; [done |].
  apply scanDir_inv in Hrun as (fuel' & [= <-] & [(err & _ & -> & _) | Hloop]); [done |].
  destruct Hloop as (files & promises & Hdir & Hloop & _).
  revert Hloop.
  apply (forEach_invariant
           (λ st, CompileResults.diagnostics st.1 = CompileResults.diagnostics r));
    [| done].
  intros dirItem [r1 ps] st' Hin Hr1 Hitem. simpl in Hr1.
  apply scanDirItem_inv in Hitem.
  destruct Hitem as [ | err Hvalid Hstat | r1' o1 Hvalid Hisdir Hsub | | | ];
    simpl; try done.
  - exfalso. eapply Hok; [| exact Hstat].
    apply scanPath_entry. by apply entryOf_intro with files.
  - rewrite <- Hr1. eapply IH; [exact Hsub |].
    intros chain readPath err Hchain. eapply Hok.
    eapply scanPath_subdir; [| exact Hisdir | exact Hchain].
    by apply entryOf_intro with files.
Qed.

(** The part of a listing in which no [stat] fails, here or below, adds
    no diagnostic. *)
Lemma scanLoop_quiet fuel dir items st st' :
  forEach items
    (scanDirItem (scanDir fuel buildConfig ctx) buildConfig ctx dir) st = Some st' →
  (∀ dirItem, dirItem ∈ items →
     let readPath := path_join (sys buildConfig) dir dirItem in
     isValidDirectory (exclude buildConfig) readPath = true →
     (∀ err, fs_stat (sys buildConfig) readPath ≠ Err err) ∧
     (directoryAt buildConfig readPath →
      ∀ chain below err, scanPath buildConfig readPath chain below →
                         fs_stat (sys buildConfig) below ≠ Err err)) →
  CompileResults.diagnostics st'.1 = CompileResults.diagnostics st.1.
Proof.
  intros Hloop Hok. revert Hloop.
  apply (forEach_invariant
           (λ t, CompileResults.diagnostics t.1 = CompileResults.diagnostics st.1));
    [| done].
  intros dirItem [r1 ps] t Hin Hr1 Hitem. simpl in Hr1.
  apply scanDirItem_inv in Hitem.
  destruct Hitem as [ | err Hvalid Hstat | r1' o1 Hvalid Hisdir Hsub | | | ];
    simpl; try done.
  - destruct (Hok dirItem Hin Hvalid) as [Hhere _]. by destruct (Hhere err).
  - destruct (Hok dirItem Hin Hvalid) as [_ Hbelow].
    rewrite <- Hr1. eapply scanDir_quiet; [exact Hsub | by apply Hbelow].
Qed.

(** No member of a chain is rejected by an exclude pattern, and the chain
    ends with the entry it leads to. *)
Lemma scanPath_valid dir chain readPath :
  scanPath buildConfig dir chain readPath →
  Forall (λ member, isValidDirectory (exclude buildConfig) member = true) chain ∧
  last chain = Some readPath.
Proof.
  induction 1 as [dir readPath (files & dirItem & _ & _ & _ & Hvalid)
                 | dir sub chain readPath (files & dirItem & _ & _ & _ & Hvalid) _ _ [IH1 IH2]].
  - split; [by repeat constructor | done].
  - split; [by constructor |].
    destruct chain as [|member chain]; [done |]. by rewrite last_cons_cons.
Qed.

Lemma scanPath_nonempty dir chain readPath :
  scanPath buildConfig dir chain readPath → chain ≠ [].
Proof. by destruct 1. Qed.

(** One failed [stat] among the entries of a listing: its diagnostic is
    the only one the scan of that directory adds. *)
Lemma scanDir_single_failure fuel dir r r' o before failing after err :
  scanDir fuel buildConfig ctx dir r = Some (r', o) →
  fs_readdir (sys buildConfig) (normalizePath dir) = Ok (before ++ failing :: after) →
  let failingPath := path_join (sys buildConfig) (normalizePath dir) failing in
  isValidDirectory (exclude buildConfig) failingPath = true →
  fs_stat (sys buildConfig) failingPath = Err err →
  (∀ sibling, sibling ∈ before ++ after →
     path_join (sys buildConfig) (normalizePath dir) sibling ≠ failingPath) →
  (∀ chain readPath err',
     scanPath buildConfig dir chain readPath → fs_stat (sys buildConfig) readPath = Err err' →
     chain = [failingPath]) →
  CompileResults.diagnostics r' =
  CompileResults.diagnostics r ++ [mkDiagnostic LevelError (message err)].
Proof.
  intros Hrun Hdir failingPath Hvalid Hstat Honce Honly.
  apply scanDir_inv in Hrun as (fuel' & -> & [(err' & Hdir' & _) | Hloop]);
    [congruence |].
  destruct Hloop as (files & promises & Hdir' & Hloop & _).
  assert (files = before ++ failing :: after) as -> by congruence.
  assert (∀ items st st',
    forEach items
      (scanDirItem (scanDir fuel' buildConfig ctx) buildConfig ctx (normalizePath dir))
      st = Some st' →
    items ⊆ before ++ after →
    CompileResults.diagnostics st'.1 = CompileResults.diagnostics st.1) as Hquiet.
  { intros items st st' Hitems Hsub. eapply scanLoop_quiet; [exact Hitems |].
    intros sibling Hin readPath Hv.
    assert (entryOf buildConfig dir readPath) as Hentry.
    { apply entryOf_intro with (before ++ failing :: after); [done | | done].
      apply Hsub in Hin. set_solver. }
    split.
    - intros err' Herr'.
      assert ([readPath] = [failingPath]) as [= Heq].
      { eapply Honly; [by apply scanPath_entry | exact Herr']. }
      by eapply Honce; [apply Hsub, Hin |].
    - intros Hisdir chain below err' Hchain Herr'.
      assert (readPath :: chain = [failingPath]) as [= _ ->].
      { eapply Honly; [by eapply scanPath_subdir | exact Herr']. }
      by apply scanPath_nonempty in Hchain. }
  rewrite forEach_app in Hloop.
  destruct (forEach before _ (r, [])) as [[r1 ps1]|] eqn:Hbefore; [| done].
  rewrite forEach_cons in Hloop.
  destruct (scanDirItem _ _ _ _ failing (r1, ps1)) as [[r2 ps2]|] eqn:Hitem; [| done].
  apply Hquiet in Hbefore; [| set_solver]. apply Hquiet in Hloop; [| set_solver].
  simpl in *. rewrite Hloop, <- Hbefore.
  apply scanDirItem_inv in Hitem. fold failingPath in Hitem.
  inversion Hitem
    as [Hv | err' Hv Hst | r1' o1 Hv Hd Hsub | moduleFile' Hv Hsrc' Hmf'
        | Hv Hsrc' Hlost | Hv Hf Hts']; subst; try stat_clash.
  simpl. unfold catchError, Array_push. by assert (err' = err) as -> by congruence.
Qed.

End Scan.

(** ** Mirroring the assets *)

Lemma Promise_all_Pending {A} (ps : list (outcome A)) :
  Promise_all ps = Pending → Pending ∈ ps.
Proof.
  induction ps as [|p ps IH]; simpl; [done |].
  destruct p as [a | err | ]; [| done | intros _; left].
  destruct (Promise_all ps); [done | done |].
  intros _. right. by apply IH.
Qed.

Section Mirror.
Context `{Imports} (buildConfig : BuildConfig).

Lemma copySassFile_Resolved sassSrcPath ctx sassSrcText :
  readFile (sys buildConfig) (normalizePath sassSrcPath) = Resolved sassSrcText →
  copySassFile buildConfig sassSrcPath ctx =
  (mkBuildContext (<[mirrorDestination buildConfig sassSrcPath := sassSrcText]> (filesToWrite ctx)),
   Resolved tt).
Proof.
  intros Hread. unfold copySassFile, mirrorDestination. rewrite Hread.
  rewrite String_indexOf_zero.
  by destruct (String.prefix (src buildConfig) (normalizePath sassSrcPath)).
Qed.


Lemma copySassFile_outcome sassSrcPath ctx :
  (copySassFile buildConfig sassSrcPath ctx).2 = readOutcome buildConfig sassSrcPath.
Proof.
  unfold copySassFile, readOutcome.
  by destruct (readFile (sys buildConfig) (normalizePath sassSrcPath)).
Qed.

Lemma mapPromises_cons {A B} (f : A → BuildContext → BuildContext * outcome B) x rest ctx :
  mapPromises f (x :: rest) ctx =
  ((mapPromises f rest (f x ctx).1).1, (f x ctx).2 :: (mapPromises f rest (f x ctx).1).2).
Proof.
  simpl. destruct (f x ctx) as [ctx1 p]. simpl.
  by destruct (mapPromises f rest ctx1).
Qed.


(** The promises of the assets end as their reads do. *)
Lemma mapPromises_outcomes assets ctx :
  (mapPromises (copySassFile buildConfig) assets ctx).2 = readOutcome buildConfig <$> assets.
Proof.
  revert ctx. induction assets as [|a assets IH]; intros ctx; [done |].
  rewrite mapPromises_cons. simpl. by rewrite copySassFile_outcome, IH.
Qed.





End Mirror.

(** ** Merging the transpiled units *)

Lemma firstOccurrences_seen (seen seen' paths : list string) :
  (∀ x, x ∈ seen ↔ x ∈ seen') →
  firstOccurrences seen paths = firstOccurrences seen' paths.
Proof.
  revert seen seen'. induction paths as [|p paths IH]; intros seen seen' Hsame; simpl; [done |].
  destruct (decide (p ∈ seen)) as [Hin | Hout], (decide (p ∈ seen')) as [Hin' | Hout'].
  - by apply IH.
  - by apply Hsame in Hin.
  - by apply Hsame in Hin'.
  - f_equal. apply IH. intros x. rewrite !elem_of_cons, Hsame. done.
Qed.

Lemma firstOccurrences_elem (seen paths : list string) (x : string) :
  x ∈ firstOccurrences seen paths ↔ x ∈ paths ∧ x ∉ seen.
Proof.
  revert seen. induction paths as [|p paths IH]; intros seen; simpl.
  - rewrite elem_of_nil. naive_solver.
  - destruct (decide (p ∈ seen)) as [Hin | Hout].
    + rewrite IH, elem_of_cons. naive_solver.
    + rewrite elem_of_cons, IH, !elem_of_cons. 
      destruct (decide (x = p)) as [-> | Hne]; naive_solver.
Qed.

Lemma firstOccurrences_NoDup (seen paths : list string) :
  NoDup (firstOccurrences seen paths).
Proof.
  revert seen. induction paths as [|p paths IH]; intros seen; simpl; [constructor |].
  destruct (decide (p ∈ seen)); [apply IH |].
  apply NoDup_cons. split; [| apply IH].
  rewrite firstOccurrences_elem, elem_of_cons. naive_solver.
Qed.

Lemma addIncludedSassFile_present (acc : list string) (path : string) :
  path ∈ acc → addIncludedSassFile acc path = acc.
Proof.
  intros Hin. unfold addIncludedSassFile.
  destruct (Array_indexOf acc path =? -1)%Z eqn:Hidx; [| done].
  by apply Array_indexOf_absent in Hidx.
Qed.

Lemma addIncludedSassFile_absent (acc : list string) (path : string) :
  path ∉ acc → addIncludedSassFile acc path = acc ++ [path].
Proof.
  intros Hout. unfold addIncludedSassFile.
  by rewrite (proj2 (Array_indexOf_absent acc path) Hout).
Qed.

(** The loop over a unit's assets appends the first occurrences. *)
Lemma fold_addIncludedSassFile (acc paths : list string) :
  fold_left addIncludedSassFile paths acc = acc ++ firstOccurrences acc paths.
Proof.
  revert acc. induction paths as [|p paths IH]; intros acc; simpl.
  - by rewrite app_nil_r.
  - destruct (decide (p ∈ acc)) as [Hin | Hout].
    + by rewrite addIncludedSassFile_present, IH.
    + rewrite addIncludedSassFile_absent, IH, <- app_assoc by done. simpl.
      do 2 f_equal. apply firstOccurrences_seen.
      intros x. set_solver.
Qed.

Lemma firstOccurrences_app (seen l1 l2 : list string) :
  firstOccurrences seen (l1 ++ l2) =
  firstOccurrences seen l1 ++ firstOccurrences (seen ++ firstOccurrences seen l1) l2.
Proof.
  revert seen. induction l1 as [|p l1 IH]; intros seen; simpl.
  - by rewrite app_nil_r.
  - destruct (decide (p ∈ seen)) as [Hin | Hout]; [apply IH |].
    rewrite IH. simpl. do 2 f_equal. apply firstOccurrences_seen.
    intros x. set_solver.
Qed.

Section Merge.
Context `{Imports} (buildConfig : BuildConfig).

Lemma mergeModuleFile_moduleFiles h tsFilePath moduleFile :
  CompileResults.moduleFiles
    (compileResults (mergeModuleFile buildConfig h (tsFilePath, moduleFile)))
  = <[tsFilePath := moduleFile]> (CompileResults.moduleFiles (compileResults h)).
Proof. unfold mergeModuleFile. by destruct (ModuleFile.includedSassFiles moduleFile). Qed.

Lemma mergeModuleFile_diagnostics h entry :
  CompileResults.diagnostics (compileResults (mergeModuleFile buildConfig h entry))
  = CompileResults.diagnostics (compileResults h).
Proof.
  destruct entry as [tsFilePath moduleFile]. unfold mergeModuleFile.
  by destruct (ModuleFile.includedSassFiles moduleFile).
Qed.

Lemma mergeModuleFile_manifest h entry :
  CompileResults.manifest (compileResults (mergeModuleFile buildConfig h entry))
  = CompileResults.manifest (compileResults h).
Proof.
  destruct entry as [tsFilePath moduleFile]. unfold mergeModuleFile.
  by destruct (ModuleFile.includedSassFiles moduleFile).
Qed.

Lemma mergeModuleFile_includedSassFiles h entry :
  CompileResults.includedSassFiles (compileResults (mergeModuleFile buildConfig h entry))
  = fold_left addIncludedSassFile (unitAssets entry.2)
      (CompileResults.includedSassFiles (compileResults h)).
Proof.
  destruct entry as [tsFilePath moduleFile]. unfold mergeModuleFile, unitAssets. simpl.
  by destruct (ModuleFile.includedSassFiles moduleFile).
Qed.

Lemma mergeModuleFile_ctx h entry :
  ctx (mergeModuleFile buildConfig h entry) =
  if generateCollection buildConfig then
    mkBuildContext (<[ModuleFile.jsFilePath entry.2 := ModuleFile.jsText entry.2]>
                      (filesToWrite (ctx h)))
  else ctx h.
Proof. destruct entry as [tsFilePath moduleFile]. reflexivity. Qed.

(** The whole loop over the units. *)
Lemma merge_diagnostics entries h :
  CompileResults.diagnostics (compileResults (fold_left (mergeModuleFile buildConfig) entries h))
  = CompileResults.diagnostics (compileResults h).
Proof.
  revert h. induction entries as [|e entries IH]; intros h; simpl; [done |].
  by rewrite IH, mergeModuleFile_diagnostics.
Qed.

Lemma merge_manifest entries h :
  CompileResults.manifest (compileResults (fold_left (mergeModuleFile buildConfig) entries h))
  = CompileResults.manifest (compileResults h).
Proof.
  revert h. induction entries as [|e entries IH]; intros h; simpl; [done |].
  by rewrite IH, mergeModuleFile_manifest.
Qed.

Lemma merge_includedSassFiles entries h :
  CompileResults.includedSassFiles
    (compileResults (fold_left (mergeModuleFile buildConfig) entries h))
  = fold_left addIncludedSassFile (referencedAssets entries)
      (CompileResults.includedSassFiles (compileResults h)).
Proof.
  revert h. induction entries as [|e entries IH]; intros h; simpl; [done |].
  rewrite IH, mergeModuleFile_includedSassFiles.
  unfold referencedAssets. simpl. by rewrite fold_left_app.
Qed.

Lemma merge_dom entries h :
  dom (CompileResults.moduleFiles
         (compileResults (fold_left (mergeModuleFile buildConfig) entries h)))
  = dom (CompileResults.moduleFiles (compileResults h)) ∪ list_to_set entries.*1.
Proof.
  revert h. induction entries as [|[k mf] entries IH]; intros h; cbn [fold_left].
  - set_solver.
  - rewrite IH, mergeModuleFile_moduleFiles, dom_insert_L, fmap_cons. set_solver.
Qed.

Lemma merge_ctx_off entries h :
  generateCollection buildConfig = false →
  ctx (fold_left (mergeModuleFile buildConfig) entries h) = ctx h.
Proof.
  intros Hoff. revert h. induction entries as [|e entries IH]; intros h; simpl; [done |].
  by rewrite IH, mergeModuleFile_ctx, Hoff.
Qed.

(** With the flag on, a key of the pending writes that the loop changed
    is the output path of a unit and holds that unit's output text. *)
Lemma merge_ctx_written entries h key :
  filesToWrite (ctx (fold_left (mergeModuleFile buildConfig) entries h)) !! key
    = filesToWrite (ctx h) !! key ∨
  ∃ entry,
    entry ∈ entries ∧ ModuleFile.jsFilePath entry.2 = key ∧
    generateCollection buildConfig = true ∧
    filesToWrite (ctx (fold_left (mergeModuleFile buildConfig) entries h)) !! key
      = Some (ModuleFile.jsText entry.2).
Proof.
  revert h. induction entries as [|e entries IH]; intros h; simpl; [by left |].
  destruct (IH (mergeModuleFile buildConfig h e)) as [Hsame | (entry & Hin & Hk & Hrest)].
  2: { right. exists entry. split; [by right | done]. }
  rewrite Hsame, mergeModuleFile_ctx.
  destruct (generateCollection buildConfig) eqn:Hflag; [| by left]. simpl.
  destruct (decide (ModuleFile.jsFilePath e.2 = key)) as [<- | Hne].
  - right. exists e. split; [left |]. by rewrite lookup_insert_eq.
  - left. by rewrite lookup_insert_ne.
Qed.

Lemma merge_ctx_on entries h entry :
  generateCollection buildConfig = true →
  entry ∈ entries →
  is_Some (filesToWrite (ctx (fold_left (mergeModuleFile buildConfig) entries h))
             !! ModuleFile.jsFilePath entry.2).
Proof.
  intros Hon Hin. apply list_elem_of_split in Hin as (before & after & ->).
  rewrite fold_left_app. simpl.
  set (h1 := mergeModuleFile buildConfig _ entry).
  destruct (merge_ctx_written after h1 (ModuleFile.jsFilePath entry.2))
    as [-> | (? & _ & _ & _ & ->)]; [| by eexists].
  unfold h1. rewrite mergeModuleFile_ctx, Hon. simpl.
  rewrite lookup_insert_eq. by eexists.
Qed.

End Merge.

(** ** The phases of [compileSrcDir] *)

Section Build.
Context `{Imports} (buildConfig : BuildConfig) (ctx0 : BuildContext).

Lemma compileSrcDir_inv fuel h o :
  compileSrcDir fuel buildConfig ctx0 = Some (h, o) →
  ∃ scanned scanOutcome,
    scanDir fuel buildConfig ctx0 (src buildConfig) initialCompileResults
      = Some (scanned, scanOutcome) ∧
    ((scanOutcome = Pending ∧ h = mkHeap scanned ctx0 ∧ o = Pending) ∨
     (scanOutcome = Resolved tt ∧ pipeline_spec buildConfig ctx0 scanned (h, o))).
Proof.
  unfold compileSrcDir.
  destruct (scanDir fuel buildConfig ctx0 (src buildConfig) initialCompileResults)
    as [[scanned scanOutcome]|] eqn:Hscan; [| done].
  intros [= Hchain]. exists scanned, scanOutcome. split; [done |].
  destruct (scanDir_outcome _ _ _ _ _ _ _ Hscan) as [-> | ->].
  2: { left. unfold then_, catch_ in Hchain. simpl in Hchain.
       by injection Hchain as <- <-. }
  right. split; [done |]. revert Hchain. unfold then_, catch_. cbn [fst snd ctx compileResults].
  destruct (transpile buildConfig ctx0 (CompileResults.moduleFiles scanned))
    as [transpileResults | err |] eqn:Htranspile.
  2: { intros [= <- <-]. by apply transpile_rejected. }
  2: { intros [= <- <-]. by apply transpile_pending. }
  destruct (mergeTranspileResults buildConfig transpileResults (mkHeap scanned ctx0))
    as [h1 o1] eqn:Hmerge.
  assert (h1 = merged buildConfig transpileResults (mkHeap scanned ctx0)) as Hh1
    by (unfold merged; by rewrite Hmerge).
  assert (o1 = Resolved tt) as ->.
  { revert Hmerge. unfold mergeTranspileResults.
    by destruct (TranspileResults.moduleFiles transpileResults); intros [= _ <-]. }
  destruct (generateManifest buildConfig (ctx h1) (compileResults h1))
    as [manifest | err] eqn:Hmanifest.
  2: { intros [= <- <-]. subst h1. by eapply manifest_thrown. }
  fold (withManifest h1 manifest).
  destruct (copySourceSassFilesToDest buildConfig (withManifest h1 manifest))
    as [h3 [values | err |]] eqn:Hcopy; intros [= <- <-]; subst h1.
  - by eapply copy_resolved.
  - by eapply copy_rejected.
  - by eapply copy_pending.
Qed.

(** Enough fuel for the scan is enough for the whole pipeline. *)
Lemma compileSrcDir_total n :
  finiteDepth buildConfig n (src buildConfig) →
  is_Some (compileSrcDir n buildConfig ctx0).
Proof.
  intros Hdepth. unfold compileSrcDir.
  destruct (scanDir_total buildConfig ctx0 n (src buildConfig) initialCompileResults Hdepth)
    as [[scanned scanOutcome] ->].
  by eexists.
Qed.

(** *** What each phase does to the heap *)

Lemma merged_diagnostics transpileResults h :
  CompileResults.diagnostics (compileResults (merged buildConfig transpileResults h)) =
  CompileResults.diagnostics (compileResults h)
    ++ TranspileResults.diagnostics transpileResults.
Proof.
  unfold merged, mergeTranspileResults.
  destruct (TranspileResults.moduleFiles transpileResults); [| done].
  simpl. by rewrite merge_diagnostics.
Qed.

Lemma merged_dom transpileResults h :
  dom (CompileResults.moduleFiles (compileResults (merged buildConfig transpileResults h))) =
  dom (CompileResults.moduleFiles (compileResults h))
    ∪ list_to_set (default [] (TranspileResults.moduleFiles transpileResults)).*1.
Proof.
  unfold merged, mergeTranspileResults.
  destruct (TranspileResults.moduleFiles transpileResults); simpl.
  - by rewrite merge_dom.
  - set_solver.
Qed.

Lemma merged_includedSassFiles transpileResults h :
  CompileResults.includedSassFiles (compileResults (merged buildConfig transpileResults h)) =
  fold_left addIncludedSassFile
    (referencedAssets (default [] (TranspileResults.moduleFiles transpileResults)))
    (CompileResults.includedSassFiles (compileResults h)).
Proof.
  unfold merged, mergeTranspileResults.
  destruct (TranspileResults.moduleFiles transpileResults); simpl; [| done].
  by rewrite merge_includedSassFiles.
Qed.

Lemma merged_ctx_off transpileResults h :
  generateCollection buildConfig = false →
  ctx (merged buildConfig transpileResults h) = ctx h.
Proof.
  intros Hoff. unfold merged, mergeTranspileResults.
  destruct (TranspileResults.moduleFiles transpileResults); simpl; [| done].
  by rewrite merge_ctx_off.
Qed.

Lemma copySourceSassFilesToDest_off h :
  generateCollection buildConfig = false →
  copySourceSassFilesToDest buildConfig h = (h, Resolved []).
Proof. intros Hoff. unfold copySourceSassFilesToDest. by rewrite Hoff. Qed.

Lemma copySourceSassFilesToDest_on h :
  generateCollection buildConfig = true →
  copySourceSassFilesToDest buildConfig h =
  (mkHeap (compileResults h)
     (mapPromises (copySassFile buildConfig)
        (CompileResults.includedSassFiles (compileResults h)) (ctx h)).1,
   Promise_all (readOutcome buildConfig
                  <$> CompileResults.includedSassFiles (compileResults h))).
Proof.
  intros Hon. unfold copySourceSassFilesToDest. rewrite Hon. simpl.
  rewrite <- mapPromises_outcomes with (ctx := ctx h).
  by destruct (mapPromises _ _ _).
Qed.

Lemma copySourceSassFilesToDest_compileResults h :
  compileResults (copySourceSassFilesToDest buildConfig h).1 = compileResults h.
Proof.
  destruct (generateCollection buildConfig) eqn:Hflag.
  - by rewrite copySourceSassFilesToDest_on.
  - by rewrite copySourceSassFilesToDest_off.
Qed.

Lemma copySourceSassFilesToDest_split h :
  copySourceSassFilesToDest buildConfig h =
  ((copySourceSassFilesToDest buildConfig h).1, (copySourceSassFilesToDest buildConfig h).2).
Proof. by destruct (copySourceSassFilesToDest buildConfig h). Qed.

(** A rejection of the mirroring is the rejection of one of the reads. *)
Lemma copySourceSassFilesToDest_Rejected h err :
  (copySourceSassFilesToDest buildConfig h).2 = Rejected err →
  generateCollection buildConfig = true ∧
  ∃ asset,
    asset ∈ CompileResults.includedSassFiles (compileResults h) ∧
    readFile (sys buildConfig) (normalizePath asset) = Rejected err.
Proof.
  destruct (generateCollection buildConfig) eqn:Hflag.
  2: { by rewrite copySourceSassFilesToDest_off. }
  rewrite copySourceSassFilesToDest_on by done. simpl. intros Hall.
  split; [done |].
  apply Promise_all_Rejected, list_elem_of_fmap in Hall as (asset & Hout & Hin).
  exists asset. split; [done |]. revert Hout. unfold readOutcome.
  destruct (readFile (sys buildConfig) (normalizePath asset)); congruence.
Qed.

(** The mirroring hangs only when a read does. *)
Lemma copySourceSassFilesToDest_Pending h :
  (copySourceSassFilesToDest buildConfig h).2 = Pending →
  ∃ asset, readFile (sys buildConfig) (normalizePath asset) = Pending.
Proof.
  destruct (generateCollection buildConfig) eqn:Hflag.
  2: { by rewrite copySourceSassFilesToDest_off. }
  rewrite copySourceSassFilesToDest_on by done. simpl. intros Hall.
  apply Promise_all_Pending, list_elem_of_fmap in Hall as (asset & Hout & Hin).
  exists asset. revert Hout. unfold readOutcome.
  destruct (readFile (sys buildConfig) (normalizePath asset)); congruence.
Qed.

(** *** What the whole chain does to the heap *)

Lemma withFault_diagnostics h err :
  CompileResults.diagnostics (compileResults (withFault h err)) =
  CompileResults.diagnostics (compileResults h) ++ [mkDiagnostic LevelError (message err)].
Proof. reflexivity. Qed.

(** The diagnostics of the scan stay at the front. *)
Lemma pipeline_diagnostics scanned h o :
  pipeline_spec buildConfig ctx0 scanned (h, o) →
  CompileResults.diagnostics scanned `prefix_of`
    CompileResults.diagnostics (compileResults h).
Proof.
  inversion 1 as [ | | tr err Ht h1 Hm | tr m h3 vs Ht h1 Hm Hc
                   | tr m h3 err Ht h1 Hm Hc | tr m h3 Ht h1 Hm Hc ]; subst.
  - done.
  - rewrite withFault_diagnostics. by apply prefix_app_r.
  - rewrite withFault_diagnostics. apply prefix_app_r. subst h1.
    rewrite merged_diagnostics. by apply prefix_app_r.
  - replace h with (copySourceSassFilesToDest buildConfig (withManifest h1 m)).1
      by (by rewrite Hc).
    rewrite copySourceSassFilesToDest_compileResults. subst h1. simpl.
    rewrite merged_diagnostics. by apply prefix_app_r.
  - rewrite withFault_diagnostics. apply prefix_app_r.
    replace h3 with (copySourceSassFilesToDest buildConfig (withManifest h1 m)).1
      by (by rewrite Hc).
    rewrite copySourceSassFilesToDest_compileResults. subst h1. simpl.
    rewrite merged_diagnostics. by apply prefix_app_r.
  - replace h with (copySourceSassFilesToDest buildConfig (withManifest h1 m)).1
      by (by rewrite Hc).
    rewrite copySourceSassFilesToDest_compileResults. subst h1. simpl.
    rewrite merged_diagnostics. by apply prefix_app_r.
Qed.

(** The module files at the end are those of the scan and those that
    [transpile] returned. *)
Lemma pipeline_dom scanned h o :
  pipeline_spec buildConfig ctx0 scanned (h, o) →
  dom (CompileResults.moduleFiles (compileResults h)) =
    dom (CompileResults.moduleFiles scanned) ∨
  ∃ transpileResults,
    transpile buildConfig ctx0 (CompileResults.moduleFiles scanned)
      = Resolved transpileResults ∧
    dom (CompileResults.moduleFiles (compileResults h)) =
      dom (CompileResults.moduleFiles scanned)
        ∪ list_to_set (default [] (TranspileResults.moduleFiles transpileResults)).*1.
Proof.
  inversion 1 as [ | | tr err Ht h1 Hm | tr m h3 vs Ht h1 Hm Hc
                   | tr m h3 err Ht h1 Hm Hc | tr m h3 Ht h1 Hm Hc ]; subst;
    [by left | by left | right; exists tr; split; [done |] ..].
  - subst h1. simpl. by rewrite merged_dom.
  - replace h with (copySourceSassFilesToDest buildConfig (withManifest h1 m)).1
      by (by rewrite Hc).
    rewrite copySourceSassFilesToDest_compileResults. subst h1. simpl.
    by rewrite merged_dom.
  - replace h3 with (copySourceSassFilesToDest buildConfig (withManifest h1 m)).1
      by (by rewrite Hc).
    simpl. rewrite copySourceSassFilesToDest_compileResults. subst h1. simpl.
    by rewrite merged_dom.
  - replace h with (copySourceSassFilesToDest buildConfig (withManifest h1 m)).1
      by (by rewrite Hc).
    rewrite copySourceSassFilesToDest_compileResults. subst h1. simpl.
    by rewrite merged_dom.
Qed.

(** Without [generateCollection] nothing is written to [ctx]. *)
Lemma pipeline_ctx_off scanned h o :
  generateCollection buildConfig = false →
  pipeline_spec buildConfig ctx0 scanned (h, o) → ctx h = ctx0.
Proof.
  intros Hoff.
  inversion 1 as [ | | tr err Ht h1 Hm | tr m h3 vs Ht h1 Hm Hc
                   | tr m h3 err Ht h1 Hm Hc | tr m h3 Ht h1 Hm Hc ]; subst;
    try done; try subst h1.
  - simpl. by rewrite merged_ctx_off.
  - rewrite copySourceSassFilesToDest_off in Hc by done. injection Hc as <- _.
    simpl. by rewrite merged_ctx_off.
  - rewrite copySourceSassFilesToDest_off in Hc by done. done.
  - rewrite copySourceSassFilesToDest_off in Hc by done. done.
Qed.

(** The asset paths at the end have no duplicate. *)
Lemma pipeline_includedSassFiles scanned h o :
  CompileResults.includedSassFiles scanned = [] →
  pipeline_spec buildConfig ctx0 scanned (h, o) →
  NoDup (CompileResults.includedSassFiles (compileResults h)).
Proof.
  intros Hempty.
  assert (∀ tr, NoDup (CompileResults.includedSassFiles
                         (compileResults (merged buildConfig tr (mkHeap scanned ctx0)))))
    as Hmerged.
  { intros tr. rewrite merged_includedSassFiles, fold_addIncludedSassFile. simpl.
    rewrite Hempty. apply firstOccurrences_NoDup. }
  inversion 1 as [ | | tr err Ht h1 Hm | tr m h3 vs Ht h1 Hm Hc
                   | tr m h3 err Ht h1 Hm Hc | tr m h3 Ht h1 Hm Hc ]; subst;
    simpl; try (rewrite Hempty; constructor); try subst h1.
  - apply Hmerged.
  - replace h with (copySourceSassFilesToDest buildConfig
                      (withManifest (merged buildConfig tr (mkHeap scanned ctx0)) m)).1
      by (by rewrite Hc).
    rewrite copySourceSassFilesToDest_compileResults. apply Hmerged.
  - replace h3 with (copySourceSassFilesToDest buildConfig
                       (withManifest (merged buildConfig tr (mkHeap scanned ctx0)) m)).1
      by (by rewrite Hc).
    rewrite copySourceSassFilesToDest_compileResults. apply Hmerged.
  - replace h with (copySourceSassFilesToDest buildConfig
                      (withManifest (merged buildConfig tr (mkHeap scanned ctx0)) m)).1
      by (by rewrite Hc).
    rewrite copySourceSassFilesToDest_compileResults. apply Hmerged.
Qed.

End Build.

Lemma append_assoc (a b c : string) : (a +:+ b) +:+ c = a +:+ (b +:+ c).
Proof.
  induction a as [|ch a IH]; [done |].
  by rewrite !append_String, IH.
Qed.

Lemma contains_trans (a b c : string) : contains a b → contains b c → contains a c.
Proof.
  intros (before & after & ->) (before' & after' & ->).
  exists (before +:+ before'), (after' +:+ after).
  by rewrite !append_assoc.
Qed.


Section Chain.
Context `{Imports} (buildConfig : BuildConfig) (ctx0 : BuildContext).


(** At the end of the chain the diagnostics of the scan come first. *)
Lemma compileSrcDir_diagnostics fuel h o scanned scanOutcome :
  compileSrcDir fuel buildConfig ctx0 = Some (h, o) →
  scanDir fuel buildConfig ctx0 (src buildConfig) initialCompileResults
    = Some (scanned, scanOutcome) →
  CompileResults.diagnostics scanned `prefix_of`
    CompileResults.diagnostics (compileResults h).
Proof.
  intros Hrun Hscan.
  apply compileSrcDir_inv in Hrun
    as (scanned' & so & Hscan' & [(_ & -> & _) | (_ & Hspec)]);
    assert (scanned' = scanned) as -> by congruence; [done |].
  by eapply pipeline_diagnostics.
Qed.

(** The chain never rejects, and resolves with [compileResults]. *)
Lemma compileSrcDir_outcome fuel h o :
  compileSrcDir fuel buildConfig ctx0 = Some (h, o) →
  o = Pending ∨ o = Resolved (compileResults h).
Proof.
  intros Hrun.
  apply compileSrcDir_inv in Hrun
    as (scanned & so & Hscan & [(_ & _ & ->) | (_ & Hspec)]); [by left |].
  inversion Hspec; subst; auto.
Qed.

(** A fault met after the scan ends the chain with its diagnostic in the
    last place. *)
Lemma compileSrcDir_raised fuel h o scanned err :
  compileSrcDir fuel buildConfig ctx0 = Some (h, o) →
  scanDir fuel buildConfig ctx0 (src buildConfig) initialCompileResults
    = Some (scanned, Resolved tt) →
  raisedAfterScan buildConfig ctx0 scanned err →
  o = Resolved (compileResults h) ∧
  ∃ earlier,
    CompileResults.diagnostics (compileResults h)
      = earlier ++ [mkDiagnostic LevelError (message err)] ∧
    CompileResults.diagnostics scanned `prefix_of` earlier.
Proof.
  intros Hrun Hscan Hraised.
  apply compileSrcDir_inv in Hrun
    as (scanned' & so & Hscan' & [(-> & _) | (-> & Hspec)]); [congruence |].
  assert (scanned' = scanned) as -> by congruence.
  inversion Hspec as [ Ht | err' Ht | tr err' Ht h1 Hm | tr m h3 vs Ht h1 Hm Hc
                       | tr m h3 err' Ht h1 Hm Hc | tr m h3 Ht h1 Hm Hc ]; subst;
    inversion Hraised as [ err2 Ht2 | tr2 err2 Ht2 h2 Hm2 | tr2 m2 err2 Ht2 h2 Hm2 Hc2 ];
    subst; try congruence;
    try (assert (tr2 = tr) as -> by congruence; subst h1 h2; try congruence;
         try (assert (m2 = m) as -> by congruence; rewrite Hc in Hc2; try done)).
  - assert (err' = err) as -> by congruence. split; [done |].
    rewrite withFault_diagnostics. by eexists.
  - assert (err' = err) as -> by congruence. split; [done |].
    rewrite withFault_diagnostics. eexists. split; [done |].
    rewrite merged_diagnostics. by apply prefix_app_r.
  - simpl in Hc2. injection Hc2 as ->. split; [done |].
    rewrite withFault_diagnostics. eexists. split; [done |].
    replace h3 with (copySourceSassFilesToDest buildConfig
                       (withManifest (merged buildConfig tr (mkHeap scanned ctx0)) m)).1
      by (by rewrite Hc).
    rewrite copySourceSassFilesToDest_compileResults. simpl.
    rewrite merged_diagnostics. by apply prefix_app_r.
Qed.

End Chain.

(** * The specification's claims *)

Section Claims.
Context `{Imports}.

(** C3.  Exclusion is a substring test: a path that contains a pattern of
    the exclude list is rejected by [isValidDirectory], and a path that
    contains none is accepted.  A module file that the scan adds comes from
    a compilable file reached through a chain of entries none of which
    contains a pattern: an excluded entry is not discovered, and neither is
    anything below it.  The directory the scan starts from is not itself
    tested; when the paths of its entries extend its own path and it
    contains a pattern, the scan discovers nothing. *)
Theorem exclusion_by_substring (buildConfig : BuildConfig) (ctx : BuildContext) :
  (∀ pattern filePath,
      pattern ∈ exclude buildConfig → contains filePath pattern →
      isValidDirectory (exclude buildConfig) filePath = false) ∧
  (∀ filePath,
      (∀ pattern, pattern ∈ exclude buildConfig → ¬ contains filePath pattern) →
      isValidDirectory (exclude buildConfig) filePath = true) ∧
  (∀ fuel dir r r' o key moduleFile,
      scanDir fuel buildConfig ctx dir r = Some (r', o) →
      CompileResults.moduleFiles r' !! key = Some moduleFile →
      CompileResults.moduleFiles r !! key = Some moduleFile ∨
      ∃ chain readPath,
        scanPath buildConfig dir chain readPath ∧
        last chain = Some readPath ∧
        sourceFileAt buildConfig readPath ∧
        getModuleFile buildConfig ctx readPath = Resolved moduleFile ∧
        ModuleFile.tsFilePath moduleFile = key ∧
        ∀ member pattern,
          member ∈ chain → pattern ∈ exclude buildConfig → ¬ contains member pattern) ∧
  (∀ fuel dir r r' o pattern,
      scanDir fuel buildConfig ctx dir r = Some (r', o) →
      (∀ parent dirItem,
          contains (path_join (sys buildConfig) (normalizePath parent) dirItem) parent) →
      pattern ∈ exclude buildConfig → contains dir pattern →
      CompileResults.moduleFiles r' = CompileResults.moduleFiles r).
Proof.
  split; [| split; [| split]].
  - intros pattern filePath Hin Hc. apply isValidDirectory_false_iff. eauto.
  - intros filePath. apply isValidDirectory_true_iff.
  - intros fuel dir r r' o key moduleFile Hrun Hkey.
    destruct (scanDir_sound _ _ _ _ _ _ _ Hrun key moduleFile Hkey)
      as [Hold | (readPath & [[chain Hchain] Hsrc] & Hmf & Hk)]; [by left |].
    right. exists chain, readPath.
    destruct (scanPath_valid _ _ _ _ Hchain) as [Hvalid Hlast].
    split_and!; try done.
    intros member pattern Hmember Hpattern.
    rewrite Forall_forall in Hvalid.
    by apply (proj1 (isValidDirectory_true_iff _ _) (Hvalid member Hmember)).
  - intros fuel dir r r' o pattern Hrun Hext Hpattern Hc.
    apply map_eq. intros key.
    destruct (CompileResults.moduleFiles r' !! key) as [moduleFile|] eqn:Hkey.
    + destruct (scanDir_sound _ _ _ _ _ _ _ Hrun key moduleFile Hkey)
        as [Hold | (readPath & [[chain Hchain] _] & _)]; [done |].
      exfalso.
      assert (∃ first, entryOf buildConfig dir first)
        as (first & files & dirItem & _ & _ & -> & Hvalid)
        by (inversion Hchain; eauto).
      eapply (proj1 (isValidDirectory_true_iff _ _) Hvalid pattern Hpattern).
      eapply contains_trans; [apply Hext | exact Hc].
    + apply scanDir_grows in Hrun as (Hdom & _).
      symmetry. apply not_elem_of_dom. intros Hin. apply Hdom in Hin.
      by apply not_elem_of_dom in Hkey.
Qed.

(** C4 (as amended).  When the listing of the source root fails, the scan
    resolves at once and leaves [compileResults] as it was: nothing is
    discovered and no diagnostic is recorded. *)
Theorem scanDir_missing_root (buildConfig : BuildConfig) (ctx : BuildContext)
    (fuel : nat) (r : CompileResults.t) (err : Error) :
  fs_readdir (sys buildConfig) (normalizePath (src buildConfig)) = Err err →
  scanDir (S fuel) buildConfig ctx (src buildConfig) r = Some (r, Resolved tt).
Proof. intros Hdir. by rewrite scanDir_S, Hdir. Qed.

(** C6.  A [stat] call that fails on one entry of a listing records the
    diagnostic of that failure and nothing more: the scan of the directory
    still returns, and resolves when [getModuleFile] resolves for the
    compilable files under it; every compilable sibling (and every
    compilable file below a sibling directory) for which [getModuleFile]
    resolves is in the module-file map; and when that call is the only one
    to fail, its diagnostic is the only one added. *)
Theorem stat_failure_is_local (buildConfig : BuildConfig) (ctx : BuildContext)
    (n : nat) (dir : string) (r : CompileResults.t)
    (files : list string) (failing : string) (err : Error) :
  finiteDepth buildConfig n dir →
  fs_readdir (sys buildConfig) (normalizePath dir) = Ok files →
  failing ∈ files →
  isValidDirectory (exclude buildConfig)
    (path_join (sys buildConfig) (normalizePath dir) failing) = true →
  fs_stat (sys buildConfig) (path_join (sys buildConfig) (normalizePath dir) failing)
    = Err err →
  ∃ r' o,
    scanDir n buildConfig ctx dir r = Some (r', o) ∧
    mkDiagnostic LevelError (message err) ∈ CompileResults.diagnostics r' ∧
    ((∀ readPath, discovered buildConfig dir readPath →
        ∃ moduleFile, getModuleFile buildConfig ctx readPath = Resolved moduleFile) →
     o = Resolved tt) ∧
    (∀ sibling moduleFile,
        sibling ∈ files →
        isValidDirectory (exclude buildConfig)
          (path_join (sys buildConfig) (normalizePath dir) sibling) = true →
        sourceFileAt buildConfig (path_join (sys buildConfig) (normalizePath dir) sibling) →
        getModuleFile buildConfig ctx
          (path_join (sys buildConfig) (normalizePath dir) sibling) = Resolved moduleFile →
        ModuleFile.tsFilePath moduleFile ∈ dom (CompileResults.moduleFiles r')) ∧
    (∀ readPath moduleFile,
        discovered buildConfig dir readPath →
        getModuleFile buildConfig ctx readPath = Resolved moduleFile →
        ModuleFile.tsFilePath moduleFile ∈ dom (CompileResults.moduleFiles r')) ∧
    (∀ before after,
        files = before ++ failing :: after →
        (∀ sibling, sibling ∈ before ++ after →
           path_join (sys buildConfig) (normalizePath dir) sibling ≠
           path_join (sys buildConfig) (normalizePath dir) failing) →
        (∀ chain readPath err',
           scanPath buildConfig dir chain readPath →
           fs_stat (sys buildConfig) readPath = Err err' →
           chain = [path_join (sys buildConfig) (normalizePath dir) failing]) →
        CompileResults.diagnostics r' =
        CompileResults.diagnostics r ++ [mkDiagnostic LevelError (message err)]).
Proof.
  intros Hdepth Hdir Hin Hvalid Hstat.
  destruct (scanDir_total buildConfig ctx n dir r Hdepth) as [[r' o] Hrun].
  exists r', o. split; [done |].
  assert (entryOf buildConfig dir (path_join (sys buildConfig) (normalizePath dir) failing))
    as Hentry by (by apply entryOf_intro with files).
  split_and!.
  - eapply scanDir_stat_failure; [exact Hrun | by apply scanPath_entry | exact Hstat].
  - by eapply scanDir_resolves.
  - intros sibling moduleFile Hsib Hv Hsrc Hmf.
    eapply scanDir_complete; [exact Hrun | | exact Hmf].
    apply discovered_entry; [| done]. by apply entryOf_intro with files.
  - intros readPath moduleFile Hd Hmf. by eapply scanDir_complete.
  - intros before after -> Honce Honly.
    by eapply scanDir_single_failure.
Qed.

(** C1 (as amended).  On a tree of finite depth the entry point returns
    and never rejects; when it resolves it resolves with [compileResults].
    It resolves whenever [getModuleFile] resolves for the compilable files
    of the tree and neither [transpile] nor a read of an asset hangs.  A
    failed [stat] of the scan leaves its diagnostic, and the first fault met
    after the scan ([transpile] rejecting, [generateManifest] throwing, or
    the read of an asset rejecting) is caught and appended as the last
    diagnostic.  A failed listing is passed over in silence: the scan
    records diagnostics for failed [stat] calls only. *)
Theorem compileSrcDir_faults (buildConfig : BuildConfig) (ctx0 : BuildContext) (n : nat) :
  finiteDepth buildConfig n (src buildConfig) →
  ∃ h o,
    compileSrcDir n buildConfig ctx0 = Some (h, o) ∧
    (∀ err, o ≠ Rejected err) ∧
    (∀ r, o = Resolved r → r = compileResults h) ∧
    ((∀ readPath, discovered buildConfig (src buildConfig) readPath →
        ∃ moduleFile, getModuleFile buildConfig ctx0 readPath = Resolved moduleFile) →
     (∀ moduleFiles, transpile buildConfig ctx0 moduleFiles ≠ Pending) →
     (∀ path, readFile (sys buildConfig) path ≠ Pending) →
     o = Resolved (compileResults h)) ∧
    (∀ chain readPath err,
        scanPath buildConfig (src buildConfig) chain readPath →
        fs_stat (sys buildConfig) readPath = Err err →
        mkDiagnostic LevelError (message err)
          ∈ CompileResults.diagnostics (compileResults h)) ∧
    (∀ scanned scanOutcome,
        scanDir n buildConfig ctx0 (src buildConfig) initialCompileResults
          = Some (scanned, scanOutcome) →
        (∀ chain readPath err,
            scanPath buildConfig (src buildConfig) chain readPath →
            fs_stat (sys buildConfig) readPath ≠ Err err) →
        CompileResults.diagnostics scanned = []) ∧
    (∀ scanned err,
        scanDir n buildConfig ctx0 (src buildConfig) initialCompileResults
          = Some (scanned, Resolved tt) →
        raisedAfterScan buildConfig ctx0 scanned err →
        o = Resolved (compileResults h) ∧
        ∃ earlier,
          CompileResults.diagnostics (compileResults h)
            = earlier ++ [mkDiagnostic LevelError (message err)] ∧
          CompileResults.diagnostics scanned `prefix_of` earlier).
Proof.
  intros Hdepth.
  destruct (compileSrcDir_total buildConfig ctx0 n Hdepth) as [[h o] Hrun].
  exists h, o. split; [done |].
  pose proof (compileSrcDir_outcome _ _ _ _ _ Hrun) as Hout.
  split_and!.
  - intros err. by destruct Hout as [-> | ->].
  - intros r. destruct Hout as [-> | ->]; [done | by intros [= <-]].
  - intros Hmodules Htranspile Hreads.
    pose proof Hrun as Hrun'.
    apply compileSrcDir_inv in Hrun'
      as (scanned & so & Hscan & [(-> & _) | (-> & Hspec)]).
    { by pose proof (scanDir_resolves _ _ _ _ _ _ _ Hscan Hmodules). }
    inversion Hspec as [ Ht | err Ht | tr err Ht h1 Hm | tr m h3 vs Ht h1 Hm Hc
                         | tr m h3 err Ht h1 Hm Hc | tr m h3 Ht h1 Hm Hc ]; subst;
      try done.
    + by apply Htranspile in Ht.
    + destruct (copySourceSassFilesToDest_Pending buildConfig (withManifest h1 m))
        as [asset Hasset]; [by rewrite Hc |].
      by apply Hreads in Hasset.
  - intros chain readPath err Hchain Hstat.
    pose proof Hrun as Hrun'.
    apply compileSrcDir_inv in Hrun' as (scanned & so & Hscan & _).
    eapply elem_of_prefix; [| by eapply compileSrcDir_diagnostics].
    by eapply scanDir_stat_failure.
  - intros scanned scanOutcome Hscan Hquiet.
    by rewrite (scanDir_quiet _ _ _ _ _ _ _ Hscan Hquiet).
  - intros scanned err Hscan Hraised. by eapply compileSrcDir_raised.
Qed.

(** C2.  A source tree of finite depth whose compilable files (the
    typed-script files met by descending through entries that no exclude
    pattern rejects) are the [N] distinct paths of [files]: after a full
    run the module-file map has exactly [N] entries, one under each of these
    paths.  The collaborators are taken to honour their contracts:
    [getModuleFile] resolves with a module file carrying the path it was
    asked for, and [transpile] returns units only for module files it was
    given. *)
Theorem moduleFiles_count (buildConfig : BuildConfig) (ctx0 : BuildContext)
    (n : nat) (files : list string) :
  finiteDepth buildConfig n (src buildConfig) →
  NoDup files →
  (∀ readPath, readPath ∈ files ↔ discovered buildConfig (src buildConfig) readPath) →
  (∀ readPath, readPath ∈ files →
     ∃ moduleFile, getModuleFile buildConfig ctx0 readPath = Resolved moduleFile ∧
                   ModuleFile.tsFilePath moduleFile = readPath) →
  (∀ moduleFiles transpileResults entries entry,
     transpile buildConfig ctx0 moduleFiles = Resolved transpileResults →
     TranspileResults.moduleFiles transpileResults = Some entries →
     entry ∈ entries → entry.1 ∈ dom moduleFiles) →
  ∃ h o,
    compileSrcDir n buildConfig ctx0 = Some (h, o) ∧
    dom (CompileResults.moduleFiles (compileResults h)) = list_to_set files ∧
    size (CompileResults.moduleFiles (compileResults h)) = length files.
Proof.
  intros Hdepth Hnodup Hfiles Hmodule Htranspile.
  destruct (compileSrcDir_total buildConfig ctx0 n Hdepth) as [[h o] Hrun].
  exists h, o. split; [done |].
  assert (dom (CompileResults.moduleFiles (compileResults h)) = list_to_set files) as Hdom.
  { apply compileSrcDir_inv in Hrun as (scanned & so & Hscan & Hrest).
    assert (dom (CompileResults.moduleFiles scanned) = list_to_set files) as Hscanned.
    { apply set_eq. intros key. rewrite elem_of_list_to_set. split.
      - intros [moduleFile Hkey]%elem_of_dom.
        destruct (scanDir_sound _ _ _ _ _ _ _ Hscan key moduleFile Hkey)
          as [Hold | (readPath & Hd & Hmf & Hk)]; [done |].
        apply Hfiles in Hd. destruct (Hmodule readPath Hd) as (moduleFile' & Hmf' & Hk').
        assert (moduleFile' = moduleFile) as -> by congruence. congruence.
      - intros Hin. destruct (Hmodule key Hin) as (moduleFile & Hmf & <-).
        eapply scanDir_complete; [exact Hscan | | exact Hmf].
        by apply Hfiles. }
    destruct Hrest as [(_ & -> & _) | (_ & Hspec)]; [done |].
    destruct (pipeline_dom _ _ _ _ _ Hspec) as [-> | (tr & Ht & ->)]; [done |].
    rewrite <- Hscanned. apply set_eq. intros key.
    rewrite elem_of_union, elem_of_list_to_set. split; [| auto].
    intros [Hkey | Hkey]; [done |].
    destruct (TranspileResults.moduleFiles tr) as [entries|] eqn:Hentries;
      [| by apply elem_of_nil in Hkey].
    simpl in Hkey. apply list_elem_of_fmap in Hkey as (entry & -> & Hentry).
    by eapply Htranspile. }
  split; [done |].
  by rewrite <- size_dom, Hdom, size_list_to_set.
Qed.

(** C5 (as amended).  An asset whose content was read is written to the
    pending writes under a normalised destination computed from its
    normalised path [p]: when [buildConfig.src] is a prefix of [p], under
    [normalizePath(join(collectionDest, relative(src, p)))]; otherwise under
    [normalizePath(join(rootDir, relative(rootDir, p)))]. *)
Theorem mirror_destination (buildConfig : BuildConfig) (sassSrcPath : string)
    (ctx : BuildContext) (sassSrcText : string) :
  readFile (sys buildConfig) (normalizePath sassSrcPath) = Resolved sassSrcText →
  (String.prefix (src buildConfig) (normalizePath sassSrcPath) = true →
   copySassFile buildConfig sassSrcPath ctx =
   (mkBuildContext
      (<[normalizePath
           (path_join (sys buildConfig) (collectionDest buildConfig)
              (path_relative (sys buildConfig) (src buildConfig)
                 (normalizePath sassSrcPath))) := sassSrcText]> (filesToWrite ctx)),
    Resolved tt)) ∧
  (String.prefix (src buildConfig) (normalizePath sassSrcPath) = false →
   copySassFile buildConfig sassSrcPath ctx =
   (mkBuildContext
      (<[normalizePath
           (path_join (sys buildConfig) (rootDir buildConfig)
              (path_relative (sys buildConfig) (rootDir buildConfig)
                 (normalizePath sassSrcPath))) := sassSrcText]> (filesToWrite ctx)),
    Resolved tt)).
Proof.
  intros Hread.
  split; intros Hprefix; rewrite (copySassFile_Resolved _ _ _ _ Hread);
    unfold mirrorDestination; by rewrite Hprefix.
Qed.


(** C8.  Without [generateCollection] the mirroring step resolves at once
    without touching the heap, however many asset paths were collected, and
    a whole run leaves the pending writes as they were. *)
Theorem no_mirroring_without_collection (buildConfig : BuildConfig) :
  generateCollection buildConfig = false →
  (∀ h, copySourceSassFilesToDest buildConfig h = (h, Resolved [])) ∧
  (∀ fuel ctx0 h o,
      compileSrcDir fuel buildConfig ctx0 = Some (h, o) →
      filesToWrite (ctx h) = filesToWrite ctx0).
Proof.
  intros Hoff. split.
  - intros h. by apply copySourceSassFilesToDest_off.
  - intros fuel ctx0 h o Hrun.
    apply compileSrcDir_inv in Hrun
      as (scanned & so & Hscan & [(_ & -> & _) | (_ & Hspec)]); [done |].
    by rewrite (pipeline_ctx_off _ _ _ _ _ Hoff Hspec).
Qed.

(** C9.  Merging the units of [transpileResults] into an accumulator whose
    asset paths have no duplicate leaves no duplicate: the new sequence is
    the old one followed by the first occurrences of the paths that the
    units refer to, so a path already present is skipped and every distinct
    path is listed once, in the order of first discovery. *)
Theorem includedSassFiles_deduplicated (buildConfig : BuildConfig)
    (transpileResults : TranspileResults.t) (entries : list (string * ModuleFile.t))
    (h : Heap) :
  TranspileResults.moduleFiles transpileResults = Some entries →
  NoDup (CompileResults.includedSassFiles (compileResults h)) →
  let previous := CompileResults.includedSassFiles (compileResults h) in
  let result :=
    CompileResults.includedSassFiles
      (compileResults (mergeTranspileResults buildConfig transpileResults h).1) in
  NoDup result ∧
  result = previous ++ firstOccurrences previous (referencedAssets entries) ∧
  (∀ path, path ∈ result ↔ path ∈ previous ∨ path ∈ referencedAssets entries).
Proof.
  intros Hentries Hnodup previous result.
  assert (result = previous ++ firstOccurrences previous (referencedAssets entries)) as Heq.
  { unfold result. fold (merged buildConfig transpileResults h).
    by rewrite merged_includedSassFiles, Hentries, fold_addIncludedSassFile. }
  split_and!; [| done |].
  - rewrite Heq. apply NoDup_app. split_and!; [done | | apply firstOccurrences_NoDup].
    intros path Hin Hfirst. apply firstOccurrences_elem in Hfirst as [_ Hout]. done.
  - intros path. rewrite Heq, elem_of_app, firstOccurrences_elem.
    destruct (decide (path ∈ previous)); naive_solver.
Qed.

(** C10.  Merging one unit puts it in the module-file map under its source
    path, and writes its output text under its output path to the pending
    writes exactly when [generateCollection] is set; without the flag the
    pending writes are untouched, by one unit and by the whole merge. *)
Theorem unit_output_written_iff_collection (buildConfig : BuildConfig) (h : Heap)
    (tsFilePath : string) (moduleFile : ModuleFile.t) :
  let h' := mergeModuleFile buildConfig h (tsFilePath, moduleFile) in
  CompileResults.moduleFiles (compileResults h') !! tsFilePath = Some moduleFile ∧
  filesToWrite (ctx h') =
    (if generateCollection buildConfig
     then <[ModuleFile.jsFilePath moduleFile := ModuleFile.jsText moduleFile]>
            (filesToWrite (ctx h))
     else filesToWrite (ctx h)) ∧
  (filesToWrite (ctx h) !! ModuleFile.jsFilePath moduleFile = None →
   filesToWrite (ctx h') !! ModuleFile.jsFilePath moduleFile
     = Some (ModuleFile.jsText moduleFile)
   ↔ generateCollection buildConfig = true) ∧
  (generateCollection buildConfig = false →
   ∀ transpileResults,
     ctx (mergeTranspileResults buildConfig transpileResults h).1 = ctx h) ∧
  (generateCollection buildConfig = true →
   ∀ transpileResults entries entry,
     TranspileResults.moduleFiles transpileResults = Some entries →
     entry ∈ entries →
     is_Some (filesToWrite (ctx (mergeTranspileResults buildConfig transpileResults h).1)
                !! ModuleFile.jsFilePath entry.2)).
Proof.
  intros h'. unfold h'.
  assert (filesToWrite (ctx (mergeModuleFile buildConfig h (tsFilePath, moduleFile))) =
          (if generateCollection buildConfig
           then <[ModuleFile.jsFilePath moduleFile := ModuleFile.jsText moduleFile]>
                  (filesToWrite (ctx h))
           else filesToWrite (ctx h))) as Hctx.
  { rewrite mergeModuleFile_ctx. by destruct (generateCollection buildConfig). }
  split_and!.
  - by rewrite mergeModuleFile_moduleFiles, lookup_insert_eq.
  - done.
  - intros Hfresh. rewrite Hctx.
    destruct (generateCollection buildConfig).
    + by rewrite lookup_insert_eq.
    + rewrite Hfresh. split; discriminate.
  - intros Hoff transpileResults. by apply merged_ctx_off.
  - intros Hon transpileResults entries entry Hentries Hin.
    unfold mergeTranspileResults. rewrite Hentries. simpl.
    by apply merge_ctx_on.
Qed.

End Claims.

(** * The claims on the small project *)

Section OnTheSmallProject.
Import Scenario.

Ltac members :=
  repeat match goal with
         | H : _ ∈ _ :: _ |- _ => apply elem_of_cons in H as [-> | H]
         | H : _ ∈ [] |- _ => by apply elem_of_nil in H
         end.

(** Opens [entryOf] on a concrete directory into its concrete entries. *)
Ltac entries H :=
  let files := fresh "files" in
  let dirItem := fresh "dirItem" in
  let Hdir := fresh "Hdir" in
  let Hin := fresh "Hin" in
  let Hvalid := fresh "Hvalid" in
  destruct H as (files & dirItem & Hdir & Hin & -> & Hvalid);
  vm_compute in Hdir; try discriminate Hdir;
  injection Hdir as <-; members; vm_compute in Hvalid; try discriminate Hvalid.

Ltac not_a_directory H :=
  let stats := fresh "stats" in
  let Hstat := fresh "Hstat" in
  let Hd := fresh "Hd" in
  destruct H as (stats & Hstat & Hd); vm_compute in Hstat;
  try discriminate Hstat; injection Hstat as <-; try discriminate Hd.

Lemma project_depth : finiteDepth config 2 "/proj/src".
Proof.
  intros sub Hsub Hisdir sub' Hsub' Hisdir'.
  entries Hsub; try (by not_a_directory Hisdir);
    entries Hsub'; by not_a_directory Hisdir'.
Qed.

Lemma project_missing_root_depth : finiteDepth configMissingRoot 1 "/proj/missing".
Proof. intros sub Hsub. entries Hsub. Qed.

Lemma project_discovered readPath :
  readPath ∈ ["/proj/src/a.ts"; "/proj/src/b.ts"; "/proj/src/sub/c.ts"] ↔
  discovered config "/proj/src" readPath.
Proof.
  split.
  - intros Hin.
    assert (entryOf config "/proj/src" "/proj/src/a.ts") as Ha
      by (exists ["a.ts"; "b.ts"; "broken.ts"; "sub"; "ignored"; "styles"], "a.ts";
          split_and!; [done | set_solver | done | done]).
    assert (entryOf config "/proj/src" "/proj/src/b.ts") as Hb
      by (exists ["a.ts"; "b.ts"; "broken.ts"; "sub"; "ignored"; "styles"], "b.ts";
          split_and!; [done | set_solver | done | done]).
    assert (entryOf config "/proj/src" "/proj/src/sub") as Hs
      by (exists ["a.ts"; "b.ts"; "broken.ts"; "sub"; "ignored"; "styles"], "sub";
          split_and!; [done | set_solver | done | done]).
    assert (entryOf config "/proj/src/sub" "/proj/src/sub/c.ts") as Hc
      by (exists ["c.ts"], "c.ts"; split_and!; [done | set_solver | done | done]).
    assert (∀ p, stat p = Ok (mkStats false) → endsWith p ".ts" = true →
                 sourceFileAt config p) as Hfile
      by (intros p Hp Hts; split; [by exists (mkStats false) | done]).
    members.
    + apply discovered_entry; [done | by apply Hfile].
    + apply discovered_entry; [done | by apply Hfile].
    + eapply discovered_subdir; [exact Hs | by exists (mkStats true) |].
      apply discovered_entry; [done | by apply Hfile].
  - intros [[chain Hchain] [Hfile Hts]].
    inversion Hchain as [dir p Hentry | dir sub chain' p Hentry Hisdir Hbelow]; subst.
    + entries Hentry; try (vm_compute in Hts; discriminate Hts);
        try (by not_a_directory Hfile); set_solver.
    + entries Hentry; try (by not_a_directory Hisdir);
        inversion Hbelow as [dir p Hentry' | dir sub' chain'' p Hentry' Hisdir' Hbelow'];
        subst.
      * entries Hentry'. set_solver.
      * entries Hentry'. by not_a_directory Hisdir'.
      * entries Hentry'. vm_compute in Hts. discriminate Hts.
      * entries Hentry'. by not_a_directory Hisdir'.
Qed.


Lemma quiet_depth : finiteDepth configQuiet 2 "/proj/src".
Proof.
  intros sub Hsub Hisdir sub' Hsub' Hisdir'.
  entries Hsub; try (by not_a_directory Hisdir);
    entries Hsub'; by not_a_directory Hisdir'.
Qed.

Lemma quiet_discovered readPath :
  readPath ∈ ["/proj/src/a.ts"; "/proj/src/b.ts"; "/proj/src/sub/c.ts"] ↔
  discovered configQuiet "/proj/src" readPath.
Proof.
  split.
  - intros Hin.
    assert (entryOf configQuiet "/proj/src" "/proj/src/a.ts") as Ha
      by (exists ["a.ts"; "b.ts"; "broken.ts"; "sub"; "ignored"; "styles"], "a.ts";
          split_and!; [done | set_solver | done | done]).
    assert (entryOf configQuiet "/proj/src" "/proj/src/b.ts") as Hb
      by (exists ["a.ts"; "b.ts"; "broken.ts"; "sub"; "ignored"; "styles"], "b.ts";
          split_and!; [done | set_solver | done | done]).
    assert (entryOf configQuiet "/proj/src" "/proj/src/sub") as Hs
      by (exists ["a.ts"; "b.ts"; "broken.ts"; "sub"; "ignored"; "styles"], "sub";
          split_and!; [done | set_solver | done | done]).
    assert (entryOf configQuiet "/proj/src/sub" "/proj/src/sub/c.ts") as Hc
      by (exists ["c.ts"], "c.ts"; split_and!; [done | set_solver | done | done]).
    assert (∀ p, stat p = Ok (mkStats false) → endsWith p ".ts" = true →
                 sourceFileAt configQuiet p) as Hfile
      by (intros p Hp Hts; split; [by exists (mkStats false) | done]).
    members.
    + apply discovered_entry; [done | by apply Hfile].
    + apply discovered_entry; [done | by apply Hfile].
    + eapply discovered_subdir; [exact Hs | by exists (mkStats true) |].
      apply discovered_entry; [done | by apply Hfile].
  - intros [[chain Hchain] [Hfile Hts]].
    inversion Hchain as [dir p Hentry | dir sub chain' p Hentry Hisdir Hbelow]; subst.
    + entries Hentry; try (vm_compute in Hts; discriminate Hts);
        try (by not_a_directory Hfile); set_solver.
    + entries Hentry; try (by not_a_directory Hisdir);
        inversion Hbelow as [dir p Hentry' | dir sub' chain'' p Hentry' Hisdir' Hbelow'];
        subst.
      * entries Hentry'. set_solver.
      * entries Hentry'. by not_a_directory Hisdir'.
      * entries Hentry'. vm_compute in Hts. discriminate Hts.
      * entries Hentry'. by not_a_directory Hisdir'.
Qed.



Lemma entriesOf_elem (moduleFiles : gmap string ModuleFile.t) keys entry :
  entry ∈ entriesOf moduleFiles keys → moduleFiles !! entry.1 = Some entry.2.
Proof.
  unfold entriesOf. intros (key & _ & Hsome)%list_elem_of_omap.
  destruct (moduleFiles !! key) as [moduleFile|] eqn:Hkey; [| done].
  by injection Hsome as <-.
Qed.

Lemma project_transpile_keys buildConfig moduleFiles transpileResults entries entry :
  transpile buildConfig emptyContext moduleFiles = Resolved transpileResults →
  TranspileResults.moduleFiles transpileResults = Some entries →
  entry ∈ entries → entry.1 ∈ dom moduleFiles.
Proof.
  intros Htranspile Hentries Hin.
  change (Resolved (TranspileResults.mk []
            (Some (entriesOf moduleFiles
                     ["/proj/src/a.ts"; "/proj/src/b.ts"; "/proj/src/sub/c.ts"])))
          = Resolved transpileResults) in Htranspile.
  assert (entries = entriesOf moduleFiles
                      ["/proj/src/a.ts"; "/proj/src/b.ts"; "/proj/src/sub/c.ts"]) as ->.
  { assert (transpileResults =
            TranspileResults.mk []
              (Some (entriesOf moduleFiles
                       ["/proj/src/a.ts"; "/proj/src/b.ts"; "/proj/src/sub/c.ts"])))
      as -> by congruence.
    cbn [TranspileResults.moduleFiles] in Hentries. congruence. }
  apply entriesOf_elem in Hin. apply elem_of_dom. by eexists.
Qed.

(** C1, run on the project: the build returns and does not reject. *)
Lemma compileSrcDir_faults_witness :
  ∃ h o, compileSrcDir 2 config emptyContext = Some (h, o) ∧ ∀ err, o ≠ Rejected err.
Proof.
  destruct (compileSrcDir_faults config emptyContext 2 project_depth)
    as (h & o & Hrun & Hrejected & _).
  exists h, o. split; assumption.
Defined.

(** C1 as stated fails: the listing of a missing source root is a fault of
    the scan, the build resolves, and no diagnostic records the fault. *)
Lemma missing_root_fault_leaves_no_diagnostic :
  fs_readdir (sys configMissingRoot) (normalizePath (src configMissingRoot))
    = Err (mkError "ENOENT") ∧
  ∃ h,
    compileSrcDir 1 configMissingRoot emptyContext = Some (h, Resolved (compileResults h)) ∧
    CompileResults.diagnostics (compileResults h) = [].
Proof.
  split; [reflexivity |].
  exists (mkHeap (CompileResults.mk ∅ [] (GeneratedManifest "manifest") []) emptyContext).
  split; [vm_compute |]; reflexivity.
Qed.

(** C2, run on the project with no failing call: three compilable files,
    three module files. *)
Lemma moduleFiles_count_witness :
  ∃ h o,
    compileSrcDir 2 configQuiet emptyContext = Some (h, o) ∧
    dom (CompileResults.moduleFiles (compileResults h))
      = list_to_set ["/proj/src/a.ts"; "/proj/src/b.ts"; "/proj/src/sub/c.ts"] ∧
    size (CompileResults.moduleFiles (compileResults h)) = 3.
Proof.
  apply (moduleFiles_count configQuiet emptyContext 2
           ["/proj/src/a.ts"; "/proj/src/b.ts"; "/proj/src/sub/c.ts"]).
  - exact quiet_depth.
  - apply (bool_decide_unpack _). vm_compute. exact I.
  - exact quiet_discovered.
  - intros readPath _. exists (moduleFileOf readPath). split; reflexivity.
  - exact (project_transpile_keys configQuiet).
Defined.

(** C3, run on the project. *)
Lemma exclusion_by_substring_witness :
  isValidDirectory (exclude config) "/proj/src/ignored/d.ts" = false ∧
  isValidDirectory (exclude config) "/proj/src/sub/c.ts" = true.
Proof.
  destruct (exclusion_by_substring config emptyContext) as (Hexcluded & Hincluded & _).
  split.
  - apply (Hexcluded "ignored"); [left |]. by exists "/proj/src/", "/d.ts".
  - apply Hincluded. intros pattern Hpattern Hcontains.
    change (pattern ∈ ["ignored"]) in Hpattern. members.
    apply String_indexOf_found in Hcontains. vm_compute in Hcontains. discriminate.
Defined.

(** C4, run on the project with a missing source root. *)
Lemma scanDir_missing_root_witness :
  scanDir 1 configMissingRoot emptyContext (src configMissingRoot) initialCompileResults
  = Some (initialCompileResults, Resolved tt).
Proof.
  apply (scanDir_missing_root configMissingRoot emptyContext 0 initialCompileResults
           (mkError "ENOENT")).
  reflexivity.
Defined.

(** C4 as stated fails: the scan of a missing source root records no
    diagnostic at all. *)
Lemma missing_root_records_no_diagnostic :
  ∃ r,
    scanDir 1 configMissingRoot emptyContext (src configMissingRoot) initialCompileResults
      = Some (r, Resolved tt) ∧
    length (CompileResults.diagnostics r) ≠ 1%nat.
Proof. exists initialCompileResults. split; [reflexivity | discriminate]. Qed.

(** C5, run on the project. *)
Lemma mirror_destination_witness :
  copySassFile config "/proj/src/styles/a.scss" emptyContext =
  (mkBuildContext (<["/proj/dist/collection/styles/a.scss" := "body {}"]> ∅), Resolved tt).
Proof.
  destruct (mirror_destination config "/proj/src/styles/a.scss" emptyContext "body {}")
    as [Hinside _]; [reflexivity |].
  apply Hinside. reflexivity.
Defined.

(** C5 as stated fails: an asset path written with back-slashes lies
    inside the source root, and is not written under
    [join(collectionDest, relative(src, assetPath))]. *)
Lemma windows_asset_not_at_stated_destination :
  String.prefix (src config) windowsAsset = true ∧
  filesToWrite (copySassFile config windowsAsset emptyContext).1
    !! path_join (sys config) (collectionDest config)
         (path_relative (sys config) (src config) windowsAsset) = None ∧
  filesToWrite (copySassFile config windowsAsset emptyContext).1
    !! "/proj/dist/collection/styles/a.scss" = Some "body {}".
Proof. split_and!; vm_compute; reflexivity. Qed.

(** C6, run on the project: [stat] fails on [broken.ts]. *)
Lemma stat_failure_is_local_witness :
  ∃ r' o,
    scanDir 2 config emptyContext "/proj/src" initialCompileResults = Some (r', o) ∧
    mkDiagnostic LevelError "EACCES" ∈ CompileResults.diagnostics r' ∧
    "/proj/src/b.ts" ∈ dom (CompileResults.moduleFiles r').
Proof.
  destruct (stat_failure_is_local config emptyContext 2 "/proj/src" initialCompileResults
              ["a.ts"; "b.ts"; "broken.ts"; "sub"; "ignored"; "styles"] "broken.ts"
              (mkError "EACCES") project_depth)
    as (r' & o & Hrun & Hdiag & _ & Hsiblings & _);
    [reflexivity | set_solver | reflexivity | reflexivity |].
  exists r', o. split_and!; [assumption | assumption |].
  apply (Hsiblings "b.ts" (moduleFileOf "/proj/src/b.ts"));
    [set_solver | reflexivity | | reflexivity].
  split; [by exists (mkStats false) | reflexivity].
Defined.


(** C8, run on the project built without a collection. *)
Lemma no_mirroring_without_collection_witness :
  copySourceSassFilesToDest configWithoutCollection (mkHeap scanned emptyContext)
  = (mkHeap scanned emptyContext, Resolved []).
Proof.
  destruct (no_mirroring_without_collection configWithoutCollection) as [Hnothing _];
    [reflexivity |].
  apply Hnothing.
Defined.

(** C9, run on the project: [a.scss] is referred to by two units. *)
Lemma includedSassFiles_deduplicated_witness :
  NoDup (CompileResults.includedSassFiles
           (compileResults
              (mergeTranspileResults config transpiled (mkHeap scanned emptyContext)).1)).
Proof.
  apply (includedSassFiles_deduplicated config transpiled
           (entriesOf (CompileResults.moduleFiles scanned)
              ["/proj/src/a.ts"; "/proj/src/b.ts"; "/proj/src/sub/c.ts"])
           (mkHeap scanned emptyContext)).
  - reflexivity.
  - vm_compute. apply NoDup_nil_2.
Defined.

(** C10, run on the project. *)
Lemma unit_output_written_iff_collection_witness :
  filesToWrite
    (ctx (mergeModuleFile config (mkHeap initialCompileResults emptyContext)
            ("/proj/src/a.ts", moduleFileOf "/proj/src/a.ts")))
    !! "/proj/src/a.ts.js" = Some "compiled".
Proof.
  destruct (unit_output_written_iff_collection config
              (mkHeap initialCompileResults emptyContext)
              "/proj/src/a.ts" (moduleFileOf "/proj/src/a.ts"))
    as (_ & _ & Hiff & _).
  apply Hiff; reflexivity.
Defined.

End OnTheSmallProject.
